(** * Log analyzer (task3) and contact assistant (task4)

    A shallow embedding of the two console utilities of the repository:
    [src/task3/task3.py] (log parsing, filtering and counting) and
    [src/task4/task4.py] (the contact-book read-eval-print loop).

    Python values are modelled as follows.
    - [str] is [string]; a character of the model is a code point below 256.
      The one operation that leaves these characters, [str.upper()], returns
      code points.
    - An exception is a value of [exn]; a call that may raise returns a
      [result].
    - The contacts [dict] is a [gmap string string] threaded through the
      handlers; the [Counter] of the log analyzer, whose iteration order is
      observable, is an association list.
    - [print] appends to an explicit output list. *)

From Stdlib Require Import Ascii String List Arith Lia.
From stdpp Require Import base option list strings gmap pretty.

Local Open Scope string_scope.
Local Open Scope list_scope.

(** ** Python built-ins used by both programs *)

Module Py.

(** Exceptions, one constructor per class the programs raise or catch; the
    argument is [str(e)] (for a [KeyError] that is the quoted message).  All
    of them are subclasses of [Exception];
    [FileNotFoundError] stands apart from [OSError] because [load_logs] has a
    handler of its own for it. *)
Inductive exn : Type :=
  | ValueError (msg : string)
  | KeyError (msg : string)
  | IndexError (msg : string)
  | FileNotFoundError (msg : string)
  | OSError (msg : string)
  | EOFError (msg : string)
  | OtherException (msg : string).

Definition str_exn (e : exn) : string :=
  match e with
  | ValueError m | KeyError m | IndexError m
  | FileNotFoundError m | OSError m | EOFError m | OtherException m => m
  end.

(** The outcome of a call: a returned value or a raised exception. *)
Inductive result (A : Type) : Type :=
  | Return (a : A)
  | Raise (e : exn).
Arguments Return {A} a.
Arguments Raise {A} e.

Definition bind {A B} (r : result A) (k : A -> result B) : result B :=
  match r with
  | Return a => k a
  | Raise e => Raise e
  end.

Definition raises {A} (r : result A) : Prop :=
  match r with
  | Return _ => False
  | Raise _ => True
  end.

(** A generator consumed in order: the first element that raises ends the
    traversal. *)
Fixpoint traverse {A B} (f : A -> result B) (l : list A) : result (list B) :=
  match l with
  | [] => Return []
  | x :: l' =>
      bind (f x) (fun y => bind (traverse f l') (fun ys => Return (y :: ys)))
  end.

(** [str.isspace] on code points below 256: TAB, LF, VT, FF, CR, the four
    separators FS, GS, RS, US, the space, NEL and the no-break space. *)
Definition is_space (c : ascii) : bool :=
  let n := nat_of_ascii c in
  (((9 <=? n) && (n <=? 13)) || ((28 <=? n) && (n <=? 32))
   || (n =? 133) || (n =? 160))%nat.

Definition snoc (s : string) (c : ascii) : string := s +:+ String c "".

(** [str.split()] with no separator: a left-to-right scan in which [tok] is
    the token being read; runs of whitespace separate tokens and produce no
    empty token. *)
Fixpoint split_from (tok : string) (s : string) : list string :=
  match s with
  | "" => if String.eqb tok "" then [] else [tok]
  | String c s' =>
      if is_space c
      then (if String.eqb tok "" then split_from "" s'
            else tok :: split_from "" s')
      else split_from (snoc tok c) s'
  end.

Definition split (s : string) : list string := split_from "" s.

(** [sep.join(l)]. *)
Fixpoint join (sep : string) (l : list string) : string :=
  match l with
  | [] => ""
  | [x] => x
  | x :: l' => x +:+ sep +:+ join sep l'
  end.

(** [str.lstrip()], [str.rstrip()] and [str.strip()] with no argument. *)
Fixpoint lstrip (s : string) : string :=
  match s with
  | "" => ""
  | String c s' => if is_space c then lstrip s' else s
  end.

Fixpoint rstrip (s : string) : string :=
  match s with
  | "" => ""
  | String c s' =>
      match rstrip s' with
      | "" => if is_space c then "" else String c ""
      | r => String c r
      end
  end.

Definition strip (s : string) : string := rstrip (lstrip s).

(** [str.lower()], character by character: the ASCII capitals and the
    capitals of the upper half (U+00C0..U+00DE but the multiplication sign)
    move up by 32; the result stays within the model's characters. *)
Definition lower_char (c : ascii) : ascii :=
  let n := nat_of_ascii c in
  if (((65 <=? n) && (n <=? 90))
      || ((192 <=? n) && (n <=? 222) && negb (n =? 215)))%nat
  then ascii_of_nat (n + 32) else c.

Fixpoint map_string (f : ascii -> ascii) (s : string) : string :=
  match s with
  | "" => ""
  | String c s' => String (f c) (map_string f s')
  end.

Definition lower (s : string) : string := map_string lower_char s.

(** The code points of a string.  The result of [str.upper()] is given as
    code points, because it can leave the model's characters. *)
Fixpoint code_points (s : string) : list nat :=
  match s with
  | "" => []
  | String c s' => nat_of_ascii c :: code_points s'
  end.

(** [str.upper()]: the small ASCII letters and the small letters of the
    upper half (U+00E0..U+00FE but the division sign) move down by 32; the
    sharp s (U+00DF) becomes the two letters SS, the micro sign (U+00B5)
    becomes U+039C and the y with diaeresis (U+00FF) becomes U+0178; every
    other character stays. *)
Definition upper_char (c : ascii) : list nat :=
  let n := nat_of_ascii c in
  (if ((97 <=? n) && (n <=? 122))
      || ((224 <=? n) && (n <=? 254) && negb (n =? 247))
   then [n - 32]
   else if n =? 223 then [83; 83]
   else if n =? 181 then [924]
   else if n =? 255 then [376]
   else [n])%nat.

Fixpoint upper (s : string) : list nat :=
  match s with
  | "" => []
  | String c s' => upper_char c ++ upper s'
  end.

(** [==] between two Python strings given by their code points. *)
Fixpoint code_eqb (a b : list nat) : bool :=
  match a, b with
  | [], [] => true
  | x :: a', y :: b' => Nat.eqb x y && code_eqb a' b'
  | _, _ => false
  end.

(** Specification side: a word is a nonempty string without whitespace. *)
Fixpoint no_space (s : string) : bool :=
  match s with
  | "" => true
  | String c s' => negb (is_space c) && no_space s'
  end.

Definition is_word (t : string) : bool :=
  negb (String.eqb t "") && no_space t.

(** [format(s, "<w")]: [s] padded on the right with spaces up to the width
    [w], and never cut. *)
Fixpoint spaces (n : nat) : string :=
  match n with
  | 0 => ""
  | S n' => String " " (spaces n')
  end.

Definition ljust (w : nat) (s : string) : string :=
  s +:+ spaces (w - String.length s).

(** [str(n)] for a length. *)
Definition str_nat (n : nat) : string := pretty n.

(** The message of the [ValueError] raised when a sequence of [got] items
    is unpacked into [need] names and a starred name. *)
Definition unpack_error (need got : nat) : exn :=
  ValueError ("not enough values to unpack (expected at least "
              +:+ str_nat need +:+ ", got " +:+ str_nat got +:+ ")").

End Py.

(** ** The log analyzer, [src/task3/task3.py] *)

Module Task3.
Import Py.

(** The dictionary built by [parse_log_line]: three fixed keys. *)
Record log : Type := {
  date_time : string;
  level : string;
  text : string
}.

(** [date, time, level, *text = line.split()] and the record built from the
    four names. *)
Definition parse_log_line (line : string) : result log :=
  match split line with
  | date :: time :: level :: text =>
      Return {| date_time := date +:+ " " +:+ time;
                level := level;
                text := join " " text |}
  | toks => Raise (unpack_error 3 (length toks))
  end.

(** What a path names.  A regular file carries the outcome of opening and
    reading it: the decoded text, or the exception of [open] or
    [readlines]. *)
Inductive node : Type :=
  | Missing
  | NotRegular
  | Regular (content : result string).

Definition filesystem : Type := string -> node.

(** A file system holding one readable regular file. *)
Definition one_file (name data : string) : filesystem :=
  fun p => if String.eqb p name then Regular (Return data) else Missing.

Definition LF : ascii := ascii_of_nat 10.
Definition CR : ascii := ascii_of_nat 13.

(** [file.readlines()] of a file opened in text mode with the default
    [newline=None]: a line ends at LF, CR or CR LF, and is delivered with a
    single LF; the last line may have no terminator. *)
Fixpoint readlines_from (cur : string) (s : string) : list string :=
  match s with
  | "" => if String.eqb cur "" then [] else [cur]
  | String c s' =>
      if Ascii.eqb c LF then snoc cur LF :: readlines_from "" s'
      else if Ascii.eqb c CR then
        match s' with
        | String c' s'' =>
            if Ascii.eqb c' LF then snoc cur LF :: readlines_from "" s''
            else snoc cur LF :: readlines_from "" s'
        | "" => [snoc cur LF]
        end
      else readlines_from (snoc cur c) s'
  end.

Definition readlines (content : string) : list string :=
  readlines_from "" content.

(** The body of the [try] block of [load_logs]. *)
Definition load_logs_try (fs : filesystem) (file_path : string)
  : result (list log) :=
  match fs file_path with
  | Missing | NotRegular =>
      Raise (FileNotFoundError
               ("The file " +:+ file_path
                +:+ " does not exist or is not a file."))
  | Regular content =>
      bind content (fun data =>
        traverse (fun line => parse_log_line (strip line)) (readlines data))
  end.

(** [load_logs]: the lines printed and the outcome of the call.  The two
    handlers print the exception and return the empty list. *)
Definition load_logs (fs : filesystem) (file_path : string)
  : list string * result (list log) :=
  match load_logs_try fs file_path with
  | Return parsed_lines => ([], Return parsed_lines)
  | Raise (FileNotFoundError m) => ([m], Return [])
  | Raise e => (["An unexpected error occurred: " +:+ str_exn e], Return [])
  end.

(** The loop of [filter_logs_by_level], appending to [filtered_list]; the
    test is [level.upper() == log["level"]]. *)
Definition filter_logs_by_level (logs : list log) (lv : string) : list log :=
  fold_left
    (fun filtered_list log =>
       if code_eqb (upper lv) (code_points (level log))
       then filtered_list ++ [log] else filtered_list)
    logs [].

(** A [Counter]: keys in insertion order, each with its tally. *)
Definition counter : Type := list (string * nat).

(** [counted_levels[key] += 1]: an existing key keeps its place, a new key
    is appended with the tally 1. *)
Fixpoint incr (key : string) (c : counter) : counter :=
  match c with
  | [] => [(key, 1)]
  | (k, n) :: c' =>
      if String.eqb k key then (k, n + 1) :: c' else (k, n) :: incr key c'
  end.

Definition count_log_by_level (logs : list log) : counter :=
  fold_left (fun counted_levels log => incr (level log) counted_levels)
            logs [].

(** [counts[key]] on the result, [None] for a key that is not there. *)
Fixpoint get (key : string) (c : counter) : option nat :=
  match c with
  | [] => None
  | (k, n) :: c' => if String.eqb k key then Some n else get key c'
  end.

(** Specification side: the distinct elements of a list in the order of
    their first occurrence, and the number of records of a level. *)
Fixpoint first_seen (l : list string) : list string :=
  match l with
  | [] => []
  | x :: l' => x :: List.filter (fun y => negb (String.eqb x y)) (first_seen l')
  end.

Definition occurrences (lv : string) (logs : list log) : nat :=
  length (List.filter (fun r => String.eqb lv (level r)) logs).

(** Specification side: the tally of a level, 0 for a level that is not a
    key. *)
Definition tally (lv : string) (c : counter) : nat := default 0 (get lv c).

(** The lines printed by [display_log_counts].  The Cyrillic literals of the
    program stand here in UTF-8; nothing looks inside them. *)
Definition table_header : string := "Рівень логування | Кількість".
Definition table_rule : string := "-----------------|----------".

Definition table_row (kv : string * nat) : string :=
  ljust 16 kv.1 +:+ " | " +:+ str_nat kv.2.

Definition display_log_counts (counts : counter) : list string :=
  [table_header; table_rule] ++ map table_row counts.

Definition details_title (lv : string) : string :=
  String LF ("Деталі логів для рівня '" +:+ lv +:+ "'").

Definition details_row (r : log) : string :=
  date_time r +:+ " - " +:+ text r.

(** [main] on the file system and [sys.argv]: everything printed, one string
    per [print], and the outcome. *)
Definition main (fs : filesystem) (argv : list string)
  : list string * result unit :=
  match argv with
  | [] | [_] => (["Usage: python script.py <file_path> [level]"], Return tt)
  | _ :: file_path :: rest =>
      let lv := match rest with [a] => a | _ => "" end in
      let (out, loaded) := load_logs fs file_path in
      match loaded with
      | Raise e => (out, Raise e)
      | Return [] => (out ++ ["No logs to display."], Return tt)
      | Return logs =>
          (out ++ display_log_counts (count_log_by_level logs)
               ++ (if String.eqb lv "" then []
                   else details_title lv
                        :: map details_row (filter_logs_by_level logs lv)),
           Return tt)
      end
  end.

End Task3.

(** ** The contact assistant, [src/task4/task4.py] *)

Module Task4.
Import Py.

(** What a handler returns and [main] prints: a message or phone number, or
    the contacts dictionary itself. *)
Inductive pyval : Type :=
  | Str (s : string)
  | Dict (d : gmap string string).

Definition not_found : pyval :=
  Str "Contact not found, please enter a valid name.".

(** A handler applied to its arguments: it reads and updates the shared
    contacts and returns or raises. *)
Definition handler : Type :=
  gmap string string -> result pyval * gmap string string.

(** The decorator: the wrapped call returns what [func] returns, or the
    message of the first matching [except] clause. *)
Definition input_error (func : handler) : handler :=
  fun contacts =>
    let (r, contacts') := func contacts in
    (match r with
     | Return v => Return v
     | Raise (ValueError _) => Return (Str "Give me name and phone please.")
     | Raise (KeyError _) =>
         Return (Str "Contact not found, please enter a valid name.")
     | Raise (IndexError _) =>
         Return (Str "Too few or too many arguments in your command.")
     | Raise e => Return (Str ("An error occurred: " +:+ str_exn e))
     end, contacts').

(** [cmd, *args = user_input.split()]; the tuple returned is the list
    [cmd :: args]. *)
Definition parse_input (user_input : string) : result (list string) :=
  match split user_input with
  | cmd :: args => Return (lower (strip cmd) :: args)
  | [] => Raise (unpack_error 1 0)
  end.

(** [name, phone = args]. *)
Definition unpack2 (args : list string) : result (string * string) :=
  match args with
  | [name; phone] => Return (name, phone)
  | [] | [_] =>
      Raise (ValueError ("not enough values to unpack (expected 2, got "
                         +:+ str_nat (length args) +:+ ")"))
  | _ => Raise (ValueError "too many values to unpack (expected 2)")
  end.

Definition add_contact_func (args : list string) : handler :=
  fun contacts =>
    if negb (Nat.eqb (length args) 2)
    then (Raise (ValueError "Name and phone required"), contacts)
    else match unpack2 args with
         | Raise e => (Raise e, contacts)
         | Return (name, phone) =>
             (Return (Str "Contact added."), <[name := phone]> contacts)
         end.

Definition add_contact (args : list string) : handler :=
  input_error (add_contact_func args).

Definition change_contact_func (args : list string) : handler :=
  fun contacts =>
    if negb (Nat.eqb (length args) 2)
    then (Raise (ValueError "Name and phone required"), contacts)
    else match unpack2 args with
         | Raise e => (Raise e, contacts)
         | Return (name, phone) =>
             match contacts !! name with
             | None => (Raise (KeyError "'Contact does not exist'"), contacts)
             | Some _ =>
                 (Return (Str "Contact changed."), <[name := phone]> contacts)
             end
         end.

Definition change_contact (args : list string) : handler :=
  input_error (change_contact_func args).

Definition find_phone_func (args : list string) : handler :=
  fun contacts =>
    match args with
    | [] => (Raise (IndexError "Name required"), contacts)
    | name :: _ =>
        match contacts !! name with
        | None => (Raise (KeyError "'Contact does not exist'"), contacts)
        | Some phone => (Return (Str phone), contacts)
        end
    end.

Definition find_phone (args : list string) : handler :=
  input_error (find_phone_func args).

Definition show_all_func : handler :=
  fun contacts => (Return (Dict contacts), contacts).

Definition show_all : handler := input_error show_all_func.

(** One pass through the body of [while True]: the value printed and whether
    the loop goes on, or the exception that leaves the loop. *)
Inductive flow : Type := Next | Break.

Definition printing (h : handler) (contacts : gmap string string)
  : result (flow * pyval) * gmap string string :=
  let (r, contacts') := h contacts in
  (bind r (fun v => Return (Next, v)), contacts').

Definition iteration (user_input : string) (contacts : gmap string string)
  : result (flow * pyval) * gmap string string :=
  match parse_input user_input with
  | Raise e => (Raise e, contacts)
  | Return [] => (Raise (unpack_error 1 0), contacts)
  | Return (command :: args) =>
      if String.eqb command "close" || String.eqb command "exit"
      then (Return (Break, Str "Good bye!"), contacts)
      else if String.eqb command "hello"
      then (Return (Next, Str "How can I help you?"), contacts)
      else if String.eqb command "add"
      then printing (add_contact args) contacts
      else if String.eqb command "change"
      then printing (change_contact args) contacts
      else if String.eqb command "phone"
      then printing (find_phone args) contacts
      else if String.eqb command "all"
      then printing show_all contacts
      else (Return (Next, Str "Invalid command."), contacts)
  end.

(** Specification side: the branch of the loop body that a command word
    and its arguments select. *)
Definition dispatch (command : string) (args : list string)
    (contacts : gmap string string)
  : result (flow * pyval) * gmap string string :=
  if String.eqb command "close" || String.eqb command "exit"
  then (Return (Break, Str "Good bye!"), contacts)
  else if String.eqb command "hello"
  then (Return (Next, Str "How can I help you?"), contacts)
  else if String.eqb command "add"
  then printing (add_contact args) contacts
  else if String.eqb command "change"
  then printing (change_contact args) contacts
  else if String.eqb command "phone"
  then printing (find_phone args) contacts
  else if String.eqb command "all"
  then printing show_all contacts
  else (Return (Next, Str "Invalid command."), contacts).

(** [main] on the lines typed at the prompt: the outcome and everything
    printed.  [input] raises [EOFError] when the lines run out. *)
Fixpoint loop (inputs : list string) (contacts : gmap string string)
    (out : list pyval) : result unit * list pyval :=
  match inputs with
  | [] => (Raise (EOFError "EOF when reading a line"), out)
  | user_input :: rest =>
      match iteration user_input contacts with
      | (Raise e, _) => (Raise e, out)
      | (Return (Break, v), _) => (Return tt, out ++ [v])
      | (Return (Next, v), contacts') => loop rest contacts' (out ++ [v])
      end
  end.

Definition main (inputs : list string) : result unit * list pyval :=
  loop inputs ∅ [Str "Welcome to the assistant bot!"].

End Task4.

(** * Properties *)

Import Py.

(** ** Sanity checks of the built-ins *)

Example split_words :
  split "  2024-01-22 08:30:01   INFO  User logged in " =
  ["2024-01-22"; "08:30:01"; "INFO"; "User"; "logged"; "in"].
Proof. reflexivity. Qed.

Example strip_line : strip (" a b " +:+ String Task3.LF "") = "a b".
Proof. reflexivity. Qed.

Example unpack_msg :
  str_exn (unpack_error 3 2) =
  "not enough values to unpack (expected at least 3, got 2)".
Proof. vm_compute. reflexivity. Qed.

Example lower_cmd : lower "AdD" = "add".
Proof. reflexivity. Qed.

Example upper_level : upper "Info" = code_points "INFO".
Proof. reflexivity. Qed.

Example upper_sharp_s :
  upper (String (ascii_of_nat 223) "") = code_points "SS".
Proof. reflexivity. Qed.

Example upper_leaves_alphabet :
  upper (String (ascii_of_nat 181) (String (ascii_of_nat 255) "")) =
  [924; 376].
Proof. reflexivity. Qed.

Example readlines_mixed :
  Task3.readlines ("a" +:+ String Task3.CR (String Task3.LF "b c")
                   +:+ String Task3.CR "d")
  = ["a" +:+ String Task3.LF ""; "b c" +:+ String Task3.LF ""; "d"].
Proof. reflexivity. Qed.

Example main_session :
  Task4.main ["add A 1"; "phone A"; "change B 2"; "PHONE"; "bye"; "exit"] =
  (Return tt,
   [Task4.Str "Welcome to the assistant bot!"; Task4.Str "Contact added.";
    Task4.Str "1";
    Task4.Str "Contact not found, please enter a valid name.";
    Task4.Str "Too few or too many arguments in your command.";
    Task4.Str "Invalid command."; Task4.Str "Good bye!"]).
Proof. vm_compute. reflexivity. Qed.

(** ** Facts about [split], [strip] and [join] *)

Section Strings.

Lemma app_empty_l (t : string) : "" +:+ t = t.
Proof. reflexivity. Qed.

Lemma app_cons (c : ascii) (s t : string) :
  String c s +:+ t = String c (s +:+ t).
Proof. reflexivity. Qed.

Lemma app_empty_r (s : string) : s +:+ "" = s.
Proof.
  induction s as [|c s IH]; [reflexivity | now rewrite app_cons, IH].
Qed.

Lemma app_assoc_str (a b c : string) : (a +:+ b) +:+ c = a +:+ (b +:+ c).
Proof.
  induction a as [|x a IH]; [reflexivity | now rewrite !app_cons, IH].
Qed.

Lemma snoc_app (tok t : string) (c : ascii) :
  snoc tok c +:+ t = tok +:+ String c t.
Proof. unfold snoc. now rewrite app_assoc_str, app_cons, app_empty_l. Qed.

Lemma snoc_not_empty (tok : string) (c : ascii) :
  String.eqb (snoc tok c) "" = false.
Proof. destruct tok; reflexivity. Qed.

Lemma no_space_app (a b : string) :
  no_space (a +:+ b) = no_space a && no_space b.
Proof.
  induction a as [|x a IH]; [reflexivity|].
  rewrite app_cons. simpl. rewrite IH. now rewrite andb_assoc.
Qed.

Lemma no_space_snoc (tok : string) (c : ascii) :
  no_space tok = true -> is_space c = false -> no_space (snoc tok c) = true.
Proof.
  intros Htok Hc. unfold snoc. rewrite no_space_app, Htok. simpl.
  now rewrite Hc.
Qed.

(** Every token produced by the scan is a word, provided the token being
    read has no whitespace. *)
Lemma split_from_words (s tok : string) :
  no_space tok = true -> Forall (fun t => is_word t = true) (split_from tok s).
Proof.
  revert tok. induction s as [|c s IH]; intros tok Htok; simpl.
  - destruct (String.eqb tok "") eqn:E; constructor; [|constructor].
    unfold is_word. now rewrite E, Htok.
  - destruct (is_space c) eqn:Hc.
    + destruct (String.eqb tok "") eqn:E.
      * now apply IH.
      * constructor; [unfold is_word; now rewrite E, Htok | now apply IH].
    + apply IH. now apply no_space_snoc.
Qed.

Lemma split_words_only (s : string) :
  Forall (fun t => is_word t = true) (split s).
Proof. now apply split_from_words. Qed.

(** Reading a run of non-space characters extends the current token. *)
Lemma split_from_app_word (t tok s : string) :
  no_space t = true -> split_from tok (t +:+ s) = split_from (tok +:+ t) s.
Proof.
  revert tok. induction t as [|c t IH]; intros tok Ht.
  - now rewrite app_empty_r, app_empty_l.
  - rewrite app_cons. simpl. simpl in Ht. apply andb_prop in Ht as [Hc Ht].
    apply negb_true_iff in Hc. rewrite Hc, IH by assumption.
    now rewrite snoc_app.
Qed.

Lemma split_word (t : string) : is_word t = true -> split t = [t].
Proof.
  unfold is_word. intros H. apply andb_prop in H as [Hne Hns].
  unfold split. rewrite <- (app_empty_r t) at 1.
  rewrite split_from_app_word by assumption. rewrite app_empty_l. simpl.
  apply negb_true_iff in Hne. now rewrite Hne.
Qed.

(** Words joined by single spaces split back into the same words. *)
Lemma split_join (toks : list string) :
  Forall (fun t => is_word t = true) toks -> split (join " " toks) = toks.
Proof.
  induction 1 as [|t toks Ht Htoks IH]; [reflexivity|].
  destruct toks as [|t' toks'].
  - simpl. now apply split_word.
  - change (join " " (t :: t' :: toks'))
      with (t +:+ String " " (join " " (t' :: toks'))).
    unfold is_word in Ht. apply andb_prop in Ht as [Hne Hns].
    unfold split. rewrite split_from_app_word by assumption.
    rewrite app_empty_l. apply negb_true_iff in Hne.
    cbn [split_from]. change (is_space " ") with true. cbv iota.
    rewrite Hne. f_equal. exact IH.
Qed.

Lemma split_lstrip (s : string) : split (lstrip s) = split s.
Proof.
  unfold split. induction s as [|c s IH]; [reflexivity|].
  simpl. destruct (is_space c) eqn:Hc; [exact IH|].
  simpl. now rewrite Hc.
Qed.

Lemma split_from_rstrip (s tok : string) :
  split_from tok (rstrip s) = split_from tok s.
Proof.
  revert tok. induction s as [|c s IH]; intros tok; [reflexivity|].
  simpl. destruct (rstrip s) as [|c' r] eqn:Hr.
  - destruct (is_space c) eqn:Hc.
    + simpl. rewrite <- (IH ""). simpl.
      destruct (String.eqb tok ""); reflexivity.
    + simpl. rewrite Hc. now rewrite <- IH.
  - simpl. destruct (is_space c);
      [destruct (String.eqb tok "")|]; now rewrite <- IH.
Qed.

(** Stripping a line does not change its tokens. *)
Lemma split_strip (s : string) : split (strip s) = split s.
Proof.
  unfold strip, split. rewrite split_from_rstrip. apply split_lstrip.
Qed.

End Strings.

(** ** The log analyzer *)

Section LogAnalyzer.
Import Task3.

Example parse_example :
  parse_log_line "2024-01-22 09:00:45 ERROR Database connection failed." =
  Return {| date_time := "2024-01-22 09:00:45"; level := "ERROR";
            text := "Database connection failed." |}.
Proof. reflexivity. Qed.

Example parse_short :
  parse_log_line "2024-01-22 09:00:45" = Raise (unpack_error 3 2).
Proof. reflexivity. Qed.

(** The two outcomes of [parse_log_line], by the number of tokens. *)
Lemma parse_log_line_cases (line : string) :
  (3 <= length (split line) /\ exists r, parse_log_line line = Return r)
  \/ (length (split line) < 3
      /\ parse_log_line line = Raise (unpack_error 3 (length (split line)))).
Proof.
  unfold parse_log_line.
  destruct (split line) as [|d [|t [|l ws]]]; simpl.
  - right; split; [lia | reflexivity].
  - right; split; [lia | reflexivity].
  - right; split; [lia | reflexivity].
  - left; split; [lia | eauto].
Qed.

(** C3: a line of at least four tokens parses into the record whose
    [date_time] is the first two tokens joined by one space, whose [level] is
    the third token as it stands, and whose [text] is the remaining tokens
    joined by single spaces; splitting [text] again gives back exactly those
    remaining tokens, so no message word is lost. *)
Theorem parse_log_line_fields (line : string) :
  4 <= length (split line) ->
  exists date time lv words,
    split line = date :: time :: lv :: words
    /\ words <> []
    /\ parse_log_line line =
         Return {| date_time := date +:+ " " +:+ time;
                   level := lv;
                   text := join " " words |}
    /\ split (join " " words) = words.
Proof.
  intros Hlen. pose proof (split_words_only line) as Hw.
  unfold parse_log_line.
  destruct (split line) as [|d [|t [|l [|w ws]]]]; simpl in Hlen; try lia.
  exists d, t, l, (w :: ws). repeat split; try reflexivity.
  - discriminate.
  - apply split_join.
    apply Forall_inv_tail in Hw. apply Forall_inv_tail in Hw.
    now apply Forall_inv_tail in Hw.
Qed.

Lemma parse_log_line_fields_witness :
  exists date time lv words,
    split "2024-01-22 08:45:23 DEBUG Starting  data backup." =
      date :: time :: lv :: words
    /\ words <> []
    /\ parse_log_line "2024-01-22 08:45:23 DEBUG Starting  data backup." =
         Return {| date_time := date +:+ " " +:+ time;
                   level := lv;
                   text := join " " words |}
    /\ split (join " " words) = words.
Proof.
  apply (parse_log_line_fields
           "2024-01-22 08:45:23 DEBUG Starting  data backup.").
  vm_compute. repeat constructor.
Defined.

(** A traversal raises the exception of the first element that raises. *)
Lemma traverse_raises {A B} (f : A -> result B) (l : list A) (x : A) :
  In x l -> raises (f x) ->
  exists y e, In y l /\ f y = Raise e /\ traverse f l = Raise e.
Proof.
  induction l as [|a l IH]; intros Hin Hx; [contradiction|].
  simpl. destruct (f a) as [b|e] eqn:Ea.
  - destruct Hin as [->|Hin]; [rewrite Ea in Hx; contradiction|].
    destruct (IH Hin Hx) as (y & e & Hy & Hfy & Htr).
    exists y, e. repeat split; [now right | assumption |].
    simpl. now rewrite Htr.
  - exists a, e. repeat split; [now left | assumption].
Qed.

(** C2: when some line of a readable regular file has fewer than three
    tokens, [load_logs] returns the empty list, whatever the other lines
    hold, and the diagnostic printed is that of the generic handler, on the
    unpacking error of [parse_log_line]. *)
Theorem load_logs_malformed_line
    (fs : filesystem) (file_path data line : string) :
  fs file_path = Regular (Return data) ->
  In line (readlines data) ->
  length (split line) < 3 ->
  exists got,
    got < 3
    /\ load_logs fs file_path =
         (["An unexpected error occurred: "
           +:+ str_exn (unpack_error 3 got)], Return []).
Proof.
  intros Hfs Hin Hshort.
  destruct (traverse_raises (fun l => parse_log_line (strip l))
              (readlines data) line Hin) as (y & e & _ & Hy & Htr).
  - destruct (parse_log_line_cases (strip line)) as [[H3 _]|[_ ->]];
      [rewrite split_strip in H3; lia | exact I].
  - destruct (parse_log_line_cases (strip y)) as [[_ [r Hr]]|[Hlt He]];
      [congruence|].
    exists (length (split (strip y))). split; [exact Hlt|].
    unfold load_logs, load_logs_try. rewrite Hfs. simpl.
    rewrite Htr. rewrite Hy in He. injection He as ->. reflexivity.
Qed.

Lemma load_logs_malformed_line_witness :
  exists got,
    got < 3
    /\ load_logs
         (one_file "app.log"
            ("2024-01-22 08:30:01 INFO User logged in."
             +:+ String LF ("2024-01-22 ERROR" +:+ String LF "")))
         "app.log" =
         (["An unexpected error occurred: "
           +:+ str_exn (unpack_error 3 got)], Return []).
Proof.
  apply (load_logs_malformed_line _ "app.log"
           ("2024-01-22 08:30:01 INFO User logged in."
            +:+ String LF ("2024-01-22 ERROR" +:+ String LF ""))
           ("2024-01-22 ERROR" +:+ String LF "")).
  - reflexivity.
  - vm_compute. right. left. reflexivity.
  - vm_compute. lia.
Defined.

(** C4: [load_logs] returns for every file system and path; when the path
    is missing or not a regular file it prints the not-found message and
    returns the empty list, and whenever anything raises inside the [try]
    block it prints one diagnostic line and returns the empty list. *)
Theorem load_logs_never_raises (fs : filesystem) (file_path : string) :
  (exists out logs, load_logs fs file_path = (out, Return logs))
  /\ (fs file_path = Missing \/ fs file_path = NotRegular ->
      load_logs fs file_path =
        (["The file " +:+ file_path +:+ " does not exist or is not a file."],
         Return []))
  /\ (forall e, load_logs_try fs file_path = Raise e ->
      exists diagnostic,
        load_logs fs file_path = ([diagnostic], Return [])
        /\ (diagnostic = str_exn e
            \/ diagnostic = "An unexpected error occurred: " +:+ str_exn e)).
Proof.
  repeat split.
  - unfold load_logs. destruct (load_logs_try fs file_path) as [l|[]]; eauto.
  - intros [H|H]; unfold load_logs, load_logs_try; now rewrite H.
  - intros e He. unfold load_logs. rewrite He. destruct e; eauto.
Qed.

Lemma load_logs_never_raises_witness :
  load_logs (fun _ => Missing) "none.log" =
    (["The file none.log does not exist or is not a file."], Return []).
Proof.
  destruct (load_logs_never_raises (fun _ => Missing) "none.log")
    as (_ & H & _).
  apply H. left. reflexivity.
Defined.

(** *** Filtering *)

Lemma code_eqb_eq (a b : list nat) : code_eqb a b = true <-> a = b.
Proof.
  revert b. induction a as [|x a IH]; intros [|y b]; simpl;
    try (split; [discriminate | discriminate]); [tauto|].
  rewrite andb_true_iff, Nat.eqb_eq, IH.
  split; [intros [-> ->]; reflexivity | intros [= -> ->]; tauto].
Qed.

Lemma code_points_inj (s t : string) :
  code_points s = code_points t -> s = t.
Proof.
  revert t. induction s as [|c s IH]; intros [|d t]; simpl;
    try discriminate; [reflexivity|].
  intros [= Hc Hs]. f_equal; [|now apply IH].
  rewrite <- (ascii_nat_embedding c), <- (ascii_nat_embedding d).
  now rewrite Hc.
Qed.


Lemma filter_loop (lv : string) (logs acc : list log) :
  fold_left
    (fun filtered_list log =>
       if code_eqb (upper lv) (code_points (level log))
       then filtered_list ++ [log] else filtered_list)
    logs acc
  = acc ++ List.filter
             (fun r => code_eqb (upper lv) (code_points (level r))) logs.
Proof.
  revert acc. induction logs as [|r logs IH]; intros acc; simpl.
  - now rewrite app_nil_r.
  - rewrite IH.
    destruct (code_eqb (upper lv) (code_points (level r))); [|reflexivity].
    now rewrite <- app_assoc.
Qed.

Example filter_example :
  filter_logs_by_level
    [ {| date_time := "d1 t1"; level := "INFO"; text := "a" |};
      {| date_time := "d2 t2"; level := "error"; text := "b" |};
      {| date_time := "d3 t3"; level := "ERROR"; text := "c" |};
      {| date_time := "d4 t4"; level := "INFO"; text := "d" |} ] "info"
  = [ {| date_time := "d1 t1"; level := "INFO"; text := "a" |};
      {| date_time := "d4 t4"; level := "INFO"; text := "d" |} ].
Proof. reflexivity. Qed.

Example filter_lowercase_stored :
  filter_logs_by_level
    [ {| date_time := "d2 t2"; level := "error"; text := "b" |} ] "error"
  = [].
Proof. reflexivity. Qed.

Example filter_sharp_s :
  filter_logs_by_level
    [ {| date_time := "d1 t1"; level := "SS"; text := "a" |} ]
    (String (ascii_of_nat 223) "")
  = [ {| date_time := "d1 t1"; level := "SS"; text := "a" |} ].
Proof. reflexivity. Qed.

(** C5: [filter_logs_by_level] returns the records whose stored level, as
    it stands, equals the uppercased filter, each as often and in the order
    it stands in the input (the result is the order-preserving filter of the
    input, which the function only reads); a record is in the result exactly
    when it is in the input with that level; and when no record has that
    level the result is the empty list.  The uppercased filter is
    [str.upper()] of the filter, compared by its code points; when it is a
    string of the model, the test is equality of the level with that
    string. *)
Theorem filter_logs_by_level_exact (logs : list log) (lv : string) :
  filter_logs_by_level logs lv =
    List.filter (fun r => code_eqb (upper lv) (code_points (level r))) logs
  /\ (forall r, In r (filter_logs_by_level logs lv)
                <-> In r logs /\ code_points (level r) = upper lv)
  /\ (forall u, upper lv = code_points u ->
      forall r, In r (filter_logs_by_level logs lv)
                <-> In r logs /\ level r = u)
  /\ ((forall r, In r logs -> code_points (level r) <> upper lv) ->
      filter_logs_by_level logs lv = []).
Proof.
  assert (E : filter_logs_by_level logs lv =
              List.filter
                (fun r => code_eqb (upper lv) (code_points (level r))) logs)
    by apply (filter_loop lv logs []).
  assert (Hin : forall r, In r (filter_logs_by_level logs lv)
                          <-> In r logs /\ code_points (level r) = upper lv).
  { intros r. rewrite E, filter_In, code_eqb_eq. intuition congruence. }
  split; [exact E|]. split; [exact Hin|]. split.
  - intros u Hu r. rewrite Hin, Hu. split; intros [Hr Hl]; split; trivial.
    + now apply code_points_inj.
    + now rewrite Hl.
  - intros Hno. destruct (filter_logs_by_level logs lv) as [|r l] eqn:Ef;
      [reflexivity|].
    exfalso. destruct (Hin r) as [Hr _].
    destruct Hr as [Hr Hl]; [now left|]. exact (Hno r Hr Hl).
Qed.

Lemma filter_logs_by_level_exact_witness :
  In {| date_time := "d1 t1"; level := "SS"; text := "a" |}
     (filter_logs_by_level
        [ {| date_time := "d1 t1"; level := "SS"; text := "a" |} ]
        (String (ascii_of_nat 223) ""))
  /\ filter_logs_by_level
       [ {| date_time := "d1 t1"; level := "INFO"; text := "a" |} ] "debug"
     = [].
Proof.
  split.
  - destruct (filter_logs_by_level_exact
                [ {| date_time := "d1 t1"; level := "SS"; text := "a" |} ]
                (String (ascii_of_nat 223) "")) as (_ & _ & H & _).
    apply (H "SS" eq_refl). split; [left|]; reflexivity.
  - destruct (filter_logs_by_level_exact
                [ {| date_time := "d1 t1"; level := "INFO"; text := "a" |} ]
                "debug") as (_ & _ & _ & H).
    apply H. intros r [<-|[]]. vm_compute. discriminate.
Defined.

(** *** Counting *)

Example count_example :
  count_log_by_level
    [ {| date_time := "d1 t1"; level := "INFO"; text := "a" |};
      {| date_time := "d2 t2"; level := "info"; text := "b" |};
      {| date_time := "d3 t3"; level := "ERROR"; text := "c" |};
      {| date_time := "d4 t4"; level := "INFO"; text := "d" |} ]
  = [("INFO", 2); ("info", 1); ("ERROR", 1)].
Proof. reflexivity. Qed.

Lemma count_snoc (logs : list log) (r : log) :
  count_log_by_level (logs ++ [r]) =
    incr (level r) (count_log_by_level logs).
Proof. unfold count_log_by_level. now rewrite fold_left_app. Qed.

Lemma keys_incr (k : string) (c : counter) :
  map fst (incr k c) =
    map fst c ++ (if existsb (String.eqb k) (map fst c) then [] else [k]).
Proof.
  induction c as [|[k' n] c IH]; simpl; [reflexivity|].
  rewrite (String.eqb_sym k k'). destruct (String.eqb k' k); simpl.
  - now rewrite app_nil_r.
  - now rewrite IH.
Qed.

Lemma get_incr_same (k : string) (c : counter) :
  get k (incr k c) =
    Some (match get k c with Some n => n + 1 | None => 1 end).
Proof.
  induction c as [|[k' n] c IH]; simpl.
  - now rewrite String.eqb_refl.
  - destruct (String.eqb k' k) eqn:E; simpl; now rewrite E.
Qed.

Lemma get_incr_other (k lv : string) (c : counter) :
  k <> lv -> get lv (incr k c) = get lv c.
Proof.
  intros Hne. induction c as [|[k' n] c IH]; simpl.
  - apply String.eqb_neq in Hne. now rewrite Hne.
  - destruct (String.eqb k' k) eqn:E; simpl.
    + apply String.eqb_eq in E. subst k'.
      apply String.eqb_neq in Hne. now rewrite Hne.
    + now rewrite IH.
Qed.

Lemma total_incr (k : string) (c : counter) :
  list_sum (map snd (incr k c)) = list_sum (map snd c) + 1.
Proof.
  induction c as [|[k' n] c IH]; simpl; [reflexivity|].
  destruct (String.eqb k' k); simpl; [lia | rewrite IH; lia].
Qed.

Lemma existsb_filter_other (x a : string) (l : list string) :
  String.eqb x a = false ->
  existsb (String.eqb x)
    (List.filter (fun y => negb (String.eqb a y)) l)
  = existsb (String.eqb x) l.
Proof.
  intros Hxa. induction l as [|y l IH]; simpl; [reflexivity|].
  destruct (String.eqb a y) eqn:E; simpl.
  - apply String.eqb_eq in E. subst y. now rewrite Hxa.
  - now rewrite IH.
Qed.

Lemma existsb_first_seen (x : string) (l : list string) :
  existsb (String.eqb x) (first_seen l) = existsb (String.eqb x) l.
Proof.
  induction l as [|a l IH]; simpl; [reflexivity|].
  destruct (String.eqb x a) eqn:E; simpl; [reflexivity|].
  now rewrite existsb_filter_other.
Qed.

Lemma first_seen_snoc (l : list string) (x : string) :
  first_seen (l ++ [x]) =
    first_seen l ++ (if existsb (String.eqb x) l then [] else [x]).
Proof.
  induction l as [|a l IH]; simpl; [reflexivity|].
  rewrite IH, List.filter_app. f_equal.
  destruct (String.eqb x a) eqn:E; simpl.
  - apply String.eqb_eq in E. subst a. f_equal.
    destruct (existsb (String.eqb x) l); simpl; [reflexivity|].
    now rewrite String.eqb_refl.
  - f_equal. destruct (existsb (String.eqb x) l); simpl; [reflexivity|].
    rewrite String.eqb_sym, E. reflexivity.
Qed.

Lemma occurrences_snoc (lv : string) (logs : list log) (r : log) :
  occurrences lv (logs ++ [r]) =
    occurrences lv logs + (if String.eqb lv (level r) then 1 else 0).
Proof.
  unfold occurrences. rewrite List.filter_app, List.length_app. simpl.
  now destruct (String.eqb lv (level r)).
Qed.

Lemma count_keys (logs : list log) :
  map fst (count_log_by_level logs) = first_seen (map level logs).
Proof.
  induction logs as [|r logs IH] using rev_ind; [reflexivity|].
  rewrite count_snoc, keys_incr, List.map_app.
  change (map level [r]) with [level r].
  now rewrite first_seen_snoc, IH, existsb_first_seen.
Qed.

Lemma count_get (logs : list log) (lv : string) :
  get lv (count_log_by_level logs) =
    if Nat.eqb (occurrences lv logs) 0 then None
    else Some (occurrences lv logs).
Proof.
  induction logs as [|r logs IH] using rev_ind; [reflexivity|].
  rewrite count_snoc, occurrences_snoc.
  destruct (String.eqb lv (level r)) eqn:E.
  - apply String.eqb_eq in E. subst lv. rewrite get_incr_same, IH.
    destruct (Nat.eqb_spec (occurrences (level r) logs) 0) as [->|Hn].
    + reflexivity.
    + destruct (Nat.eqb_spec (occurrences (level r) logs + 1) 0);
        [lia | reflexivity].
  - apply String.eqb_neq in E. rewrite get_incr_other by congruence.
    now rewrite IH, Nat.add_0_r.
Qed.

Lemma count_total (logs : list log) :
  list_sum (map snd (count_log_by_level logs)) = length logs.
Proof.
  induction logs as [|r logs IH] using rev_ind; [reflexivity|].
  rewrite count_snoc, total_incr, IH, length_app. reflexivity.
Qed.

Lemma count_loop_single (lv : string) (logs : list log) (n : nat) :
  Forall (fun r => level r = lv) logs ->
  fold_left (fun counted_levels log => incr (level log) counted_levels)
            logs [(lv, n)]
  = [(lv, n + length logs)].
Proof.
  intros Hall. revert n.
  induction Hall as [|r logs Hr _ IH]; intros n; simpl.
  - now rewrite Nat.add_0_r.
  - rewrite Hr, String.eqb_refl, IH. do 2 f_equal. lia.
Qed.

(** C6: [count_log_by_level] maps each level string, compared as it
    stands, to the number of records carrying it: the keys are the distinct
    levels in first-seen order, the tally of a level is the number of its
    records (a level without records is not a key), the tallies add up to
    the number of records, the empty list gives the empty mapping, and a
    nonempty list of records of one level gives that level with the length
    of the list. *)
Theorem count_log_by_level_tally (logs : list log) :
  map fst (count_log_by_level logs) = first_seen (map level logs)
  /\ (forall lv, get lv (count_log_by_level logs) =
                 if Nat.eqb (occurrences lv logs) 0 then None
                 else Some (occurrences lv logs))
  /\ list_sum (map snd (count_log_by_level logs)) = length logs
  /\ count_log_by_level [] = []
  /\ (forall lv, logs <> [] -> Forall (fun r => level r = lv) logs ->
      count_log_by_level logs = [(lv, length logs)]).
Proof.
  split; [apply count_keys|].
  split; [intros lv; apply count_get|].
  split; [apply count_total|].
  split; [reflexivity|].
  intros lv Hne Hall. destruct logs as [|r logs]; [congruence|].
  inversion Hall as [|? ? Hr Hrest]; subst.
  unfold count_log_by_level. simpl.
  now rewrite count_loop_single.
Qed.

Lemma count_log_by_level_tally_witness :
  count_log_by_level
    [ {| date_time := "d1 t1"; level := "INFO"; text := "a" |};
      {| date_time := "d2 t2"; level := "INFO"; text := "b" |} ]
  = [("INFO", 2)].
Proof.
  destruct (count_log_by_level_tally
    [ {| date_time := "d1 t1"; level := "INFO"; text := "a" |};
      {| date_time := "d2 t2"; level := "INFO"; text := "b" |} ])
    as (_ & _ & _ & _ & H).
  apply (H "INFO"); [discriminate | repeat constructor].
Defined.

End LogAnalyzer.

(** ** The contact assistant *)

Section ContactAssistant.
Import Task4.

Implicit Types contacts : gmap string string.
Implicit Types args : list string.

Lemma wrong_arity_add args contacts :
  length args <> 2 ->
  add_contact args contacts =
    (Return (Str "Give me name and phone please."), contacts).
Proof.
  intros Hlen. destruct args as [|a [|b [|c l]]]; simpl in Hlen;
    try reflexivity. congruence.
Qed.

Lemma wrong_arity_change args contacts :
  length args <> 2 ->
  change_contact args contacts =
    (Return (Str "Give me name and phone please."), contacts).
Proof.
  intros Hlen. destruct args as [|a [|b [|c l]]]; simpl in Hlen;
    try reflexivity. congruence.
Qed.

Lemma change_absent name phone contacts :
  contacts !! name = None ->
  change_contact [name; phone] contacts = (Return not_found, contacts).
Proof.
  intros Habs. unfold change_contact, input_error, change_contact_func.
  simpl. now rewrite Habs.
Qed.

Lemma change_present name phone contacts :
  is_Some (contacts !! name) ->
  change_contact [name; phone] contacts =
    (Return (Str "Contact changed."), <[name := phone]> contacts).
Proof.
  intros [old Hold]. unfold change_contact, input_error, change_contact_func.
  simpl. now rewrite Hold.
Qed.

Lemma find_absent name rest contacts :
  contacts !! name = None ->
  find_phone (name :: rest) contacts = (Return not_found, contacts).
Proof.
  intros Habs. unfold find_phone, input_error, find_phone_func.
  now rewrite Habs.
Qed.

Lemma find_present name rest phone contacts :
  contacts !! name = Some phone ->
  find_phone (name :: rest) contacts = (Return (Str phone), contacts).
Proof.
  intros Hp. unfold find_phone, input_error, find_phone_func.
  now rewrite Hp.
Qed.

Lemma add_two name phone contacts :
  add_contact [name; phone] contacts =
    (Return (Str "Contact added."), <[name := phone]> contacts).
Proof. reflexivity. Qed.

(** C7: the messages of the error-translation wrapper.  Whatever function
    is wrapped, a [ValueError], a [KeyError] and an [IndexError] give the
    three fixed messages and any other exception gives the generic message
    with its text; [add_contact] and [change_contact] with an argument count
    other than two give the first, a lookup of an absent name by
    [change_contact] or [find_phone] gives the second, and [find_phone]
    without arguments gives the third. *)
Theorem input_error_messages :
  (forall func contacts contacts' e,
      func contacts = (Raise e, contacts') ->
      input_error func contacts =
        (Return (Str match e with
                     | ValueError _ => "Give me name and phone please."
                     | KeyError _ =>
                         "Contact not found, please enter a valid name."
                     | IndexError _ =>
                         "Too few or too many arguments in your command."
                     | _ => "An error occurred: " +:+ str_exn e
                     end), contacts'))
  /\ (forall args contacts, length args <> 2 ->
        add_contact args contacts =
          (Return (Str "Give me name and phone please."), contacts))
  /\ (forall args contacts, length args <> 2 ->
        change_contact args contacts =
          (Return (Str "Give me name and phone please."), contacts))
  /\ (forall name phone contacts, contacts !! name = None ->
        change_contact [name; phone] contacts =
          (Return (Str "Contact not found, please enter a valid name."),
           contacts))
  /\ (forall name rest contacts, contacts !! name = None ->
        find_phone (name :: rest) contacts =
          (Return (Str "Contact not found, please enter a valid name."),
           contacts))
  /\ (forall contacts,
        find_phone [] contacts =
          (Return (Str "Too few or too many arguments in your command."),
           contacts)).
Proof.
  split.
  { intros func contacts contacts' e Hf. unfold input_error. rewrite Hf.
    now destruct e. }
  split; [exact wrong_arity_add|].
  split; [exact wrong_arity_change|].
  split; [exact change_absent|].
  split; [exact find_absent|].
  reflexivity.
Qed.

Lemma input_error_messages_witness :
  add_contact ["A"] ∅ =
    (Return (Str "Give me name and phone please."), ∅)
  /\ find_phone ["B"] {["A" := "1"]} =
       (Return (Str "Contact not found, please enter a valid name."),
        {["A" := "1"]})
  /\ input_error (fun contacts => (Raise (EOFError "closed"), contacts)) ∅ =
       (Return (Str "An error occurred: closed"), ∅).
Proof.
  destruct input_error_messages as (Hgen & Hadd & _ & _ & Hfind & _).
  split; [apply Hadd; simpl; lia|].
  split; [apply Hfind; reflexivity|].
  exact (Hgen (fun contacts => (Raise (EOFError "closed"), contacts))
           ∅ ∅ (EOFError "closed") eq_refl).
Defined.

(** C8: [change_contact] with a name that is not in the mapping returns the
    not-found message and leaves the mapping as it was; with a name that is
    in the mapping it stores the new number under that name and reports
    success. *)
Theorem change_contact_checked name phone contacts :
  (contacts !! name = None ->
   change_contact [name; phone] contacts =
     (Return (Str "Contact not found, please enter a valid name."),
      contacts))
  /\ (is_Some (contacts !! name) ->
      change_contact [name; phone] contacts =
        (Return (Str "Contact changed."), <[name := phone]> contacts)
      /\ <[name := phone]> contacts !! name = Some phone).
Proof.
  split; [apply change_absent|].
  intros Hin. split; [now apply change_present | apply lookup_insert_eq].
Qed.

Lemma change_contact_checked_witness :
  change_contact ["A"; "2"] ∅ =
    (Return (Str "Contact not found, please enter a valid name."), ∅)
  /\ change_contact ["A"; "2"] {["A" := "1"]} =
       (Return (Str "Contact changed."), <["A" := "2"]> {["A" := "1"]}).
Proof.
  split.
  - apply (change_contact_checked "A" "2" ∅). reflexivity.
  - apply (change_contact_checked "A" "2" {["A" := "1"]}).
    exists "1". reflexivity.
Defined.

(** C9: after [add_contact] with a name and a phone the mapping holds the
    phone under the name, the message is the success message, and
    [find_phone] of the name returns the phone; after a [change_contact]
    that reported success, [find_phone] of the name returns the new
    phone. *)
Theorem add_change_then_find name phone contacts :
  (exists contacts',
      add_contact [name; phone] contacts =
        (Return (Str "Contact added."), contacts')
      /\ contacts' = <[name := phone]> contacts
      /\ contacts' !! name = Some phone
      /\ find_phone [name] contacts' = (Return (Str phone), contacts'))
  /\ (forall contacts',
      change_contact [name; phone] contacts =
        (Return (Str "Contact changed."), contacts') ->
      find_phone [name] contacts' = (Return (Str phone), contacts')).
Proof.
  split.
  - exists (<[name := phone]> contacts).
    split; [apply add_two|]. split; [reflexivity|].
    split; [apply lookup_insert_eq|].
    apply find_present, lookup_insert_eq.
  - intros contacts' Hch. destruct (contacts !! name) as [old|] eqn:Hn.
    + rewrite change_present in Hch by eauto.
      injection Hch as <-. apply find_present, lookup_insert_eq.
    + rewrite change_absent in Hch by assumption. discriminate.
Qed.

Lemma add_change_then_find_witness :
  find_phone ["A"] (<["A" := "2"]> {["A" := "1"]}) =
    (Return (Str "2"), <["A" := "2"]> {["A" := "1"]}).
Proof.
  apply (add_change_then_find "A" "2" {["A" := "1"]}).
  apply change_present. exists "1". reflexivity.
Defined.

(** C10: [add_contact] and [change_contact] leave every key other than
    their first argument as it was, present with the same phone or absent;
    [find_phone] and [show_all] return the mapping they were given. *)
Theorem handlers_frame :
  (forall args contacts k, head args <> Some k ->
      (add_contact args contacts).2 !! k = contacts !! k)
  /\ (forall args contacts k, head args <> Some k ->
      (change_contact args contacts).2 !! k = contacts !! k)
  /\ (forall args contacts, (find_phone args contacts).2 = contacts)
  /\ (forall contacts, (show_all contacts).2 = contacts).
Proof.
  repeat split.
  - intros args contacts k Hk. destruct args as [|a [|b [|c l]]];
      try reflexivity.
    rewrite add_two. simpl in *. apply lookup_insert_ne. congruence.
  - intros args contacts k Hk. destruct args as [|a [|b [|c l]]];
      try reflexivity.
    destruct (contacts !! a) as [old|] eqn:Ha.
    + rewrite change_present by eauto. simpl in *.
      apply lookup_insert_ne. congruence.
    + now rewrite change_absent.
  - intros args contacts. destruct args as [|a l]; [reflexivity|].
    destruct (contacts !! a) as [p|] eqn:Ha.
    + now rewrite (find_present _ _ p).
    + now rewrite find_absent.
Qed.

Lemma handlers_frame_witness :
  (add_contact ["A"; "2"] {["B" := "1"]}).2 !! "B" = Some "1"
  /\ (change_contact ["A"; "2"] {["A" := "0"; "B" := "1"]}).2 !! "B"
     = ({["A" := "0"; "B" := "1"]} : gmap string string) !! "B".
Proof.
  destruct handlers_frame as (Hadd & Hch & _).
  split.
  - rewrite (Hadd ["A"; "2"] {["B" := "1"]} "B"); [reflexivity|].
    simpl. discriminate.
  - apply (Hch ["A"; "2"]). simpl. discriminate.
Defined.

(** *** The command loop *)

Lemma input_error_returns (func : handler) contacts :
  exists v contacts', input_error func contacts = (Return v, contacts').
Proof.
  unfold input_error. destruct (func contacts) as [[v|e] contacts'].
  - eauto.
  - destruct e; eauto.
Qed.

Lemma printing_returns (func : handler) contacts :
  exists v contacts',
    printing (input_error func) contacts = (Return (Next, v), contacts').
Proof.
  destruct (input_error_returns func contacts) as (v & contacts' & H).
  exists v, contacts'. unfold printing. now rewrite H.
Qed.

(** A line with at least one token never leaves the loop by an
    exception. *)
Lemma iteration_returns (user_input : string) contacts :
  split user_input <> [] ->
  exists fl v contacts',
    iteration user_input contacts = (Return (fl, v), contacts').
Proof.
  intros Htok. unfold iteration, parse_input.
  destruct (split user_input) as [|cmd args]; [congruence|].
  destruct (String.eqb _ "close" || String.eqb _ "exit"); [eauto|].
  destruct (String.eqb _ "hello"); [eauto|].
  destruct (String.eqb _ "add");
    [destruct (printing_returns (add_contact_func args) contacts)
       as (v & c' & H); eauto|].
  destruct (String.eqb _ "change");
    [destruct (printing_returns (change_contact_func args) contacts)
       as (v & c' & H); eauto|].
  destruct (String.eqb _ "phone");
    [destruct (printing_returns (find_phone_func args) contacts)
       as (v & c' & H); eauto|].
  destruct (String.eqb _ "all");
    [destruct (printing_returns show_all_func contacts)
       as (v & c' & H); eauto|].
  eauto.
Qed.

(** A line without tokens makes [parse_input] raise, and nothing around the
    call catches it. *)
Lemma iteration_no_token (user_input : string) contacts :
  split user_input = [] ->
  iteration user_input contacts = (Raise (unpack_error 1 0), contacts).
Proof.
  intros Htok. unfold iteration, parse_input. now rewrite Htok.
Qed.

(** C1, at the empty line: [parse_input] raises the unpacking [ValueError],
    the iteration ends with that exception instead of a printed message,
    and [main] stops there: the lines typed after it are never read. *)
Theorem iteration_empty_line_raises :
  (forall contacts, raises (iteration "" contacts).1)
  /\ (forall contacts,
        iteration "" contacts = (Raise (unpack_error 1 0), contacts))
  /\ main ["add A 1"; ""; "phone A"; "exit"] =
       (Raise (unpack_error 1 0),
        [Str "Welcome to the assistant bot!"; Str "Contact added."]).
Proof.
  split; [intros contacts; exact I|].
  split; [intros contacts; reflexivity|].
  vm_compute. reflexivity.
Qed.

End ContactAssistant.

(** ** Further properties of the log analyzer *)

Section LogAnalyzerMore.
Import Task3.

Lemma parse_log_line_strip (line : string) :
  parse_log_line (strip line) = parse_log_line line.
Proof. unfold parse_log_line. now rewrite split_strip. Qed.

(** X1: [parse_log_line] raises exactly on the lines of fewer than three
    tokens; a line of exactly three tokens is accepted, with the empty
    text. *)
Theorem parse_log_line_accepts (line : string) :
  (raises (parse_log_line line) <-> length (split line) < 3)
  /\ (forall d t l, split line = [d; t; l] ->
      parse_log_line line =
        Return {| date_time := d +:+ " " +:+ t; level := l; text := "" |}).
Proof.
  split.
  - destruct (parse_log_line_cases line) as [[H3 [r ->]]|[Hlt ->]]; simpl;
      split; intros; try lia; try contradiction; exact I.
  - intros d t l E. unfold parse_log_line. now rewrite E.
Qed.

Lemma parse_log_line_accepts_witness :
  parse_log_line " 2024-01-22  08:30:01 INFO " =
    Return {| date_time := "2024-01-22 08:30:01"; level := "INFO";
              text := "" |}.
Proof.
  destruct (parse_log_line_accepts " 2024-01-22  08:30:01 INFO ")
    as [_ H].
  exact (H "2024-01-22" "08:30:01" "INFO" eq_refl).
Defined.

(** X2: The amount and kind of whitespace between the tokens of a line does not
    matter: the line with its tokens joined by single spaces, and the
    stripped line, parse as the line itself. *)
Theorem parse_log_line_whitespace (line : string) :
  parse_log_line (join " " (split line)) = parse_log_line line
  /\ parse_log_line (strip line) = parse_log_line line.
Proof.
  split; [|apply parse_log_line_strip].
  unfold parse_log_line.
  now rewrite (split_join (split line) (split_words_only line)).
Qed.

(** X3: The tokens of a parsed line are all kept, in order: they are the two
    tokens of [date_time], then [level], which is one nonempty token, then
    the tokens of [text]. *)
Theorem parse_log_line_tokens (line : string) (r : log) :
  parse_log_line line = Return r ->
  split line = split (date_time r) ++ level r :: split (text r)
  /\ length (split (date_time r)) = 2
  /\ is_word (level r) = true.
Proof.
  intros Hp. pose proof (split_words_only line) as Hw.
  unfold parse_log_line in Hp.
  destruct (split line) as [|d [|t [|l ws]]]; try discriminate.
  injection Hp as <-. simpl.
  inversion Hw as [|? ? Hd Hw1]; subst.
  inversion Hw1 as [|? ? Ht Hw2]; subst.
  inversion Hw2 as [|? ? Hl Hws]; subst.
  assert (Hdt : split (d +:+ " " +:+ t) = [d; t])
    by (apply (split_join [d; t]); repeat constructor; assumption).
  rewrite Hdt, (split_join ws Hws). repeat split. exact Hl.
Qed.

Lemma parse_log_line_tokens_witness :
  split "2024-01-22 08:30:01 INFO  User   logged in." =
    split "2024-01-22 08:30:01" ++ "INFO" :: split "User logged in."
  /\ length (split "2024-01-22 08:30:01") = 2
  /\ is_word "INFO" = true.
Proof.
  exact (parse_log_line_tokens
           "2024-01-22 08:30:01 INFO  User   logged in."
           {| date_time := "2024-01-22 08:30:01"; level := "INFO";
              text := "User logged in." |} eq_refl).
Defined.

Lemma traverse_returns {A B} (f : A -> result B) (l : list A) :
  (forall x, In x l -> exists y, f x = Return y) ->
  exists ys, traverse f l = Return ys
             /\ Forall2 (fun x y => f x = Return y) l ys.
Proof.
  induction l as [|a l IH]; intros Hall.
  - exists []. split; [reflexivity | constructor].
  - destruct (Hall a (or_introl eq_refl)) as [b Hb].
    destruct IH as (ys & Hys & Hf2);
      [intros x Hx; apply Hall; now right|].
    exists (b :: ys). split; [simpl; now rewrite Hb, Hys|].
    constructor; assumption.
Qed.

(** X4: A readable regular file all of whose lines have at least three tokens
    loads without any diagnostic into one record per line, in the order of
    the lines, each the parse of its line. *)
Theorem load_logs_well_formed (fs : filesystem) (file_path data : string) :
  fs file_path = Regular (Return data) ->
  (forall line, In line (readlines data) -> 3 <= length (split line)) ->
  exists logs,
    load_logs fs file_path = ([], Return logs)
    /\ Forall2 (fun line r => parse_log_line line = Return r)
               (readlines data) logs.
Proof.
  intros Hfs Hall.
  destruct (traverse_returns (fun l => parse_log_line (strip l))
              (readlines data)) as (logs & Htr & Hf2).
  - intros line Hin. rewrite parse_log_line_strip.
    destruct (parse_log_line_cases line) as [[_ Hr]|[Hlt _]];
      [exact Hr | specialize (Hall line Hin); lia].
  - exists logs. split.
    + unfold load_logs, load_logs_try. rewrite Hfs. simpl. now rewrite Htr.
    + eapply Forall2_impl; [exact Hf2|].
      intros line r H. cbv beta in H.
      now rewrite parse_log_line_strip in H.
Qed.

Lemma load_logs_well_formed_witness :
  exists logs,
    load_logs
      (one_file "app.log"
         ("2024-01-22 08:30:01 INFO User logged in."
          +:+ String LF "2024-01-22 08:45:23 DEBUG x"))
      "app.log" = ([], Return logs)
    /\ Forall2 (fun line r => parse_log_line line = Return r)
         (readlines ("2024-01-22 08:30:01 INFO User logged in."
                     +:+ String LF "2024-01-22 08:45:23 DEBUG x")) logs.
Proof.
  apply (load_logs_well_formed _ "app.log"
           ("2024-01-22 08:30:01 INFO User logged in."
            +:+ String LF "2024-01-22 08:45:23 DEBUG x")).
  - reflexivity.
  - vm_compute. intros line [<-|[<-|[]]]; lia.
Defined.

Lemma traverse_stops {A B} (f : A -> result B)
    (good rest : list A) (bad : A) (e : exn) :
  Forall (fun x => exists y, f x = Return y) good ->
  f bad = Raise e ->
  traverse f (good ++ bad :: rest) = Raise e.
Proof.
  intros Hgood Hbad. induction Hgood as [|x good [y Hy] _ IH]; simpl.
  - now rewrite Hbad.
  - now rewrite Hy, IH.
Qed.

(** X5: Loading stops at the first malformed line: the diagnostic carries the
    number of tokens of that line, and what follows it in the file, well
    formed or not, has no effect. *)
Theorem load_logs_first_malformed
    (fs : filesystem) (file_path data bad : string)
    (good rest : list string) :
  fs file_path = Regular (Return data) ->
  readlines data = good ++ bad :: rest ->
  Forall (fun line => 3 <= length (split line)) good ->
  length (split bad) < 3 ->
  load_logs fs file_path =
    (["An unexpected error occurred: "
      +:+ str_exn (unpack_error 3 (length (split bad)))], Return []).
Proof.
  intros Hfs Hlines Hgood Hbad.
  unfold load_logs, load_logs_try. rewrite Hfs. cbn [bind].
  rewrite Hlines.
  rewrite (traverse_stops _ good rest bad
             (unpack_error 3 (length (split bad)))).
  - reflexivity.
  - eapply List.Forall_impl; [|exact Hgood].
    intros line H3. cbv beta in H3 |- *.
    rewrite parse_log_line_strip.
    destruct (parse_log_line_cases line) as [[_ Hr]|[Hlt _]];
      [exact Hr | lia].
  - rewrite parse_log_line_strip.
    destruct (parse_log_line_cases bad) as [[H3 _]|[_ Hr]];
      [lia | exact Hr].
Qed.

Lemma load_logs_first_malformed_witness :
  load_logs
    (one_file "app.log"
       ("d t INFO a" +:+ String LF ("d t" +:+ String LF "d")))
    "app.log"
  = (["An unexpected error occurred: "
      +:+ str_exn (unpack_error 3 (length (split ("d t" +:+ String LF ""))))],
     Return []).
Proof.
  apply (load_logs_first_malformed _ "app.log"
           ("d t INFO a" +:+ String LF ("d t" +:+ String LF "d"))
           ("d t" +:+ String LF "")
           ["d t INFO a" +:+ String LF ""] ["d"]).
  - reflexivity.
  - reflexivity.
  - repeat constructor.
  - vm_compute. lia.
Defined.

Lemma readlines_from_cons (cur s : string) (c : ascii) :
  readlines_from cur (String c s) =
    if Ascii.eqb c LF then snoc cur LF :: readlines_from "" s
    else if Ascii.eqb c CR then
      match s with
      | String c' s'' =>
          if Ascii.eqb c' LF then snoc cur LF :: readlines_from "" s''
          else snoc cur LF :: readlines_from "" s
      | "" => [snoc cur LF]
      end
    else readlines_from (snoc cur c) s.
Proof. reflexivity. Qed.

Lemma readlines_blank_line (n : nat) :
  forall a b cur, String.length a <= n ->
    In (String LF "") (readlines_from cur (a +:+ String LF (String LF b))).
Proof.
  assert (Hone : forall b, In (String LF "") (readlines_from "" (String LF b))).
  { intros b. rewrite readlines_from_cons.
    change (Ascii.eqb LF LF) with true. left. reflexivity. }
  assert (Hbase : forall b cur,
    In (String LF "") (readlines_from cur (String LF (String LF b)))).
  { intros b cur. rewrite readlines_from_cons.
    change (Ascii.eqb LF LF) with true. right. apply Hone. }
  induction n as [|n IH]; intros a b cur Hlen.
  - destruct a; [apply Hbase | simpl in Hlen; lia].
  - destruct a as [|c a]; [apply Hbase|].
    simpl in Hlen. rewrite app_cons, readlines_from_cons.
    destruct (Ascii.eqb c LF); [right; apply IH; lia|].
    destruct (Ascii.eqb c CR); [|apply IH; lia].
    destruct a as [|c' a].
    + rewrite app_empty_l. cbv match.
      change (Ascii.eqb LF LF) with true. cbv match. right. apply Hone.
    + simpl in Hlen. rewrite app_cons. cbv match.
      destruct (Ascii.eqb c' LF).
      * right. apply IH. lia.
      * right. rewrite <- app_cons. apply IH. simpl; lia.
Qed.

(** X6: An empty line anywhere in a readable file, such as a blank line left at
    its end, makes the whole load fail: [load_logs] prints the diagnostic of
    the generic handler and returns the empty list. *)
Theorem load_logs_blank_line (fs : filesystem) (file_path a b : string) :
  fs file_path = Regular (Return (a +:+ String LF (String LF b))) ->
  exists got,
    got < 3
    /\ load_logs fs file_path =
         (["An unexpected error occurred: "
           +:+ str_exn (unpack_error 3 got)], Return []).
Proof.
  intros Hfs.
  pose proof (readlines_blank_line (String.length a) a b "" (le_n _)) as Hin.
  fold (readlines (a +:+ String LF (String LF b))) in Hin.
  destruct (traverse_raises (fun l => parse_log_line (strip l)) _ _ Hin)
    as (y & e & _ & Hy & Htr); [exact I|].
  rewrite parse_log_line_strip in Hy.
  destruct (parse_log_line_cases y) as [[_ [r Hr]]|[Hlt He]]; [congruence|].
  exists (length (split y)). split; [exact Hlt|].
  unfold load_logs, load_logs_try. rewrite Hfs. simpl. rewrite Htr.
  rewrite Hy in He. injection He as ->. reflexivity.
Qed.

Lemma load_logs_blank_line_witness :
  exists got,
    got < 3
    /\ load_logs
         (one_file "app.log"
            ("d t INFO a" +:+ String LF (String LF "d t INFO b")))
         "app.log" =
         (["An unexpected error occurred: "
           +:+ str_exn (unpack_error 3 got)], Return []).
Proof.
  apply (load_logs_blank_line _ "app.log" "d t INFO a" "d t INFO b").
  reflexivity.
Defined.

(** *** Filtering and counting together *)

Lemma filter_logs_by_level_filter (logs : list log) (lv : string) :
  filter_logs_by_level logs lv =
    List.filter (fun r => code_eqb (upper lv) (code_points (level r))) logs.
Proof. apply (filter_loop lv logs []). Qed.

(** X7: Filtering a filtered list again: by a level with the same uppercase
    form nothing more is removed, by any other level nothing is left. *)
Theorem filter_logs_by_level_twice (logs : list log) (lv lv' : string) :
  (upper lv' = upper lv ->
   filter_logs_by_level (filter_logs_by_level logs lv) lv' =
     filter_logs_by_level logs lv)
  /\ (upper lv' <> upper lv ->
      filter_logs_by_level (filter_logs_by_level logs lv) lv' = []).
Proof.
  rewrite !filter_logs_by_level_filter. split; intros Hu.
  - rewrite Hu. induction logs as [|r logs IH]; [reflexivity|].
    simpl. destruct (code_eqb (upper lv) (code_points (level r))) eqn:E;
      [|exact IH].
    simpl. now rewrite E, IH.
  - induction logs as [|r logs IH]; [reflexivity|].
    simpl. destruct (code_eqb (upper lv) (code_points (level r))) eqn:E;
      [|exact IH].
    simpl. apply code_eqb_eq in E.
    destruct (code_eqb (upper lv') (code_points (level r))) eqn:E';
      [|exact IH].
    apply code_eqb_eq in E'. congruence.
Qed.

Lemma filter_logs_by_level_twice_witness :
  filter_logs_by_level
    (filter_logs_by_level
       [ {| date_time := "d1 t1"; level := "SS"; text := "a" |};
         {| date_time := "d2 t2"; level := "ERROR"; text := "b" |} ]
       "ss") (String (ascii_of_nat 223) "")
  = filter_logs_by_level
      [ {| date_time := "d1 t1"; level := "SS"; text := "a" |};
        {| date_time := "d2 t2"; level := "ERROR"; text := "b" |} ]
      "ss"
  /\ filter_logs_by_level
       (filter_logs_by_level
          [ {| date_time := "d1 t1"; level := "SS"; text := "a" |};
            {| date_time := "d2 t2"; level := "ERROR"; text := "b" |} ]
          "ss") "error"
     = [].
Proof.
  destruct (filter_logs_by_level_twice
    [ {| date_time := "d1 t1"; level := "SS"; text := "a" |};
      {| date_time := "d2 t2"; level := "ERROR"; text := "b" |} ]
    "ss" (String (ascii_of_nat 223) "")) as [Hsame _].
  destruct (filter_logs_by_level_twice
    [ {| date_time := "d1 t1"; level := "SS"; text := "a" |};
      {| date_time := "d2 t2"; level := "ERROR"; text := "b" |} ]
    "ss" "error") as [_ Hother].
  split; [apply Hsame; reflexivity | apply Hother; discriminate].
Defined.

(** X8: Filtering goes through concatenation, so it can be done piece by piece,
    and it never returns more records than it was given. *)
Theorem filter_logs_by_level_app (logs logs' : list log) (lv : string) :
  filter_logs_by_level (logs ++ logs') lv =
    filter_logs_by_level logs lv ++ filter_logs_by_level logs' lv
  /\ length (filter_logs_by_level logs lv) <= length logs.
Proof.
  rewrite !filter_logs_by_level_filter. split.
  - apply List.filter_app.
  - apply List.filter_length_le.
Qed.

Lemma tally_count (logs : list log) (lv : string) :
  tally lv (count_log_by_level logs) = occurrences lv logs.
Proof.
  unfold tally. rewrite count_get.
  now destruct (Nat.eqb_spec (occurrences lv logs) 0) as [->|].
Qed.



Lemma first_seen_NoDup (l : list string) : NoDup (first_seen l).
Proof.
  induction l as [|x l IH]; simpl; constructor.
  - rewrite list_elem_of_In, filter_In, String.eqb_refl.
    intros [_ H]. discriminate.
  - apply NoDup_ListNoDup, List.NoDup_filter, NoDup_ListNoDup, IH.
Qed.

Lemma first_seen_length (l : list string) :
  length (first_seen l) <= length l.
Proof.
  induction l as [|x l IH]; simpl; [lia|].
  pose proof (List.filter_length_le
                (fun y => negb (String.eqb x y)) (first_seen l)). lia.
Qed.

Lemma get_of_In (c : counter) (k : string) (n : nat) :
  NoDup (map fst c) -> In (k, n) c -> get k c = Some n.
Proof.
  induction c as [|[k' n'] c IH]; intros Hnd Hin; [contradiction|].
  simpl in Hnd. apply NoDup_cons in Hnd as [Hk' Hnd]. simpl.
  destruct Hin as [[= -> ->]|Hin]; [now rewrite String.eqb_refl|].
  destruct (String.eqb k' k) eqn:E; [|now apply IH].
  apply String.eqb_eq in E. subst k'. exfalso. apply Hk'.
  apply list_elem_of_In. change k with (fst (k, n)). now apply in_map.
Qed.

(** X10: The mapping returned by [count_log_by_level] has no key twice, every
    key is the level of some record of the input with a tally of at least
    one, and there are at most as many keys as records. *)
Theorem count_log_by_level_keys (logs : list log) :
  NoDup (map fst (count_log_by_level logs))
  /\ (forall k n, In (k, n) (count_log_by_level logs) ->
      1 <= n /\ exists r, In r logs /\ level r = k)
  /\ length (count_log_by_level logs) <= length logs.
Proof.
  assert (Hnd : NoDup (map fst (count_log_by_level logs)))
    by (rewrite count_keys; apply first_seen_NoDup).
  split; [exact Hnd|]. split.
  - intros k n Hin. pose proof (get_of_In _ _ _ Hnd Hin) as Hget.
    rewrite count_get in Hget. unfold occurrences in Hget.
    destruct (List.filter (fun r => String.eqb k (level r)) logs)
      as [|r l] eqn:Ef; [discriminate|].
    simpl in Hget. injection Hget as <-. split; [lia|].
    assert (Hr : In r (List.filter (fun r => String.eqb k (level r)) logs))
      by (rewrite Ef; now left).
    apply filter_In in Hr as [Hr Hk]. apply String.eqb_eq in Hk. eauto.
  - rewrite <- (List.length_map fst), count_keys.
    rewrite <- (List.length_map level logs). apply first_seen_length.
Qed.

Lemma count_log_by_level_keys_witness :
  1 <= 2 /\ exists r,
    In r [ {| date_time := "d1 t1"; level := "INFO"; text := "a" |};
           {| date_time := "d2 t2"; level := "INFO"; text := "b" |} ]
    /\ level r = "INFO".
Proof.
  destruct (count_log_by_level_keys
    [ {| date_time := "d1 t1"; level := "INFO"; text := "a" |};
      {| date_time := "d2 t2"; level := "INFO"; text := "b" |} ])
    as (_ & H & _).
  apply (H "INFO" 2). left. reflexivity.
Defined.

Lemma occurrences_Permutation (lv : string) (logs logs' : list log) :
  Permutation logs logs' -> occurrences lv logs = occurrences lv logs'.
Proof.
  unfold occurrences. induction 1 as [|r l l' _ IH|r r' l|l l' l'' _ IH1 _ IH2];
    simpl.
  - reflexivity.
  - destruct (String.eqb lv (level r)); simpl; now rewrite IH.
  - now destruct (String.eqb lv (level r)), (String.eqb lv (level r')).
  - now rewrite IH1.
Qed.

(** X11: The order of the records decides the order of the keys and nothing
    else: reordering the input leaves the tally of every level, present or
    absent, as it was. *)
Theorem count_log_by_level_Permutation (logs logs' : list log) :
  Permutation logs logs' ->
  forall lv, get lv (count_log_by_level logs) =
             get lv (count_log_by_level logs').
Proof.
  intros Hp lv. rewrite !count_get.
  now rewrite (occurrences_Permutation lv logs logs' Hp).
Qed.

Lemma count_log_by_level_Permutation_witness :
  get "INFO" (count_log_by_level
     [ {| date_time := "d1 t1"; level := "INFO"; text := "a" |};
       {| date_time := "d2 t2"; level := "ERROR"; text := "b" |} ])
  = get "INFO" (count_log_by_level
     [ {| date_time := "d2 t2"; level := "ERROR"; text := "b" |};
       {| date_time := "d1 t1"; level := "INFO"; text := "a" |} ]).
Proof.
  apply count_log_by_level_Permutation. apply perm_swap.
Defined.

(** X12: Counting two lists one after the other adds up the tallies of each
    level. *)
Theorem count_log_by_level_app (logs logs' : list log) (lv : string) :
  tally lv (count_log_by_level (logs ++ logs')) =
    tally lv (count_log_by_level logs) + tally lv (count_log_by_level logs').
Proof.
  rewrite !tally_count. unfold occurrences.
  now rewrite List.filter_app, List.length_app.
Qed.

(** *** The table and [main] *)

Lemma length_append (a b : string) :
  String.length (a +:+ b) = String.length a + String.length b.
Proof.
  induction a as [|c a IH]; [reflexivity|].
  rewrite app_cons. simpl. now rewrite IH.
Qed.

Lemma length_spaces (n : nat) : String.length (spaces n) = n.
Proof. induction n as [|n IH]; simpl; [reflexivity | now rewrite IH]. Qed.

(** X13: After its two heading lines the table has one row per key, in the order
    of the mapping.  In a row the level stands in full, padded with spaces
    to 16 characters when it is shorter, and is followed by the separator
    and the tally: a level of more than 16 characters is not cut, it pushes
    the separator to the right. *)
Theorem display_log_counts_rows (counts : counter) :
  Forall2
    (fun kv row =>
       exists pad,
         row = kv.1 +:+ spaces pad +:+ " | " +:+ str_nat kv.2
         /\ String.length kv.1 + pad = Nat.max 16 (String.length kv.1))
    counts (drop 2 (display_log_counts counts)).
Proof.
  unfold display_log_counts. simpl.
  induction counts as [|[k v] counts IH]; simpl; constructor; [|exact IH].
  exists (16 - String.length k). split.
  - unfold table_row, ljust. simpl. now rewrite app_assoc_str.
  - simpl. lia.
Qed.

Lemma load_logs_returns (fs : filesystem) (file_path : string) :
  exists out logs, load_logs fs file_path = (out, Return logs).
Proof.
  unfold load_logs. destruct (load_logs_try fs file_path) as [l|[]]; eauto.
Qed.

(** X14: [main] returns normally whatever the file system and the command line
    are: no exception of the loader or of the printing reaches the
    interpreter. *)
Theorem log_main_returns (fs : filesystem) (argv : list string) :
  exists out, main fs argv = (out, Return tt).
Proof.
  destruct argv as [|script [|file_path rest]]; simpl; eauto.
  destruct (load_logs_returns fs file_path) as (out & logs & ->).
  destruct logs; eauto.
Qed.

(** X15: When the file cannot be used, [main] prints no table: for a path that is
    missing or not a regular file it prints the not-found message and then
    "No logs to display."; for any exception raised while loading, one
    diagnostic and that line; for an empty file, that line alone.  The
    level argument plays no part. *)
Theorem log_main_no_logs
    (fs : filesystem) (script file_path : string) (rest : list string) :
  (fs file_path = Missing \/ fs file_path = NotRegular ->
   main fs (script :: file_path :: rest) =
     (["The file " +:+ file_path +:+ " does not exist or is not a file.";
       "No logs to display."], Return tt))
  /\ (forall e, load_logs_try fs file_path = Raise e ->
      exists diagnostic,
        main fs (script :: file_path :: rest) =
          ([diagnostic; "No logs to display."], Return tt))
  /\ (fs file_path = Regular (Return "") ->
      main fs (script :: file_path :: rest) =
        (["No logs to display."], Return tt)).
Proof.
  repeat split.
  - intros [H|H]; unfold main, load_logs, load_logs_try; now rewrite H.
  - intros e He. unfold main, load_logs. rewrite He. destruct e; eauto.
  - intros H. unfold main, load_logs, load_logs_try. now rewrite H.
Qed.

Lemma log_main_no_logs_witness :
  main (fun _ => Missing) ["task3.py"; "none.log"; "error"] =
    (["The file none.log does not exist or is not a file.";
      "No logs to display."], Return tt).
Proof.
  destruct (log_main_no_logs (fun _ => Missing) "task3.py" "none.log"
              ["error"]) as (H & _ & _).
  apply H. left. reflexivity.
Defined.

(** X16: The level is taken from the command line only when there are exactly
    three arguments: with more of them the filter is dropped without a
    word, and [main] prints what it prints for the path alone; an empty
    level argument does the same. *)
Theorem log_main_level_argument
    (fs : filesystem) (script file_path : string) (rest : list string) :
  (length rest <> 1 ->
   main fs (script :: file_path :: rest) = main fs [script; file_path])
  /\ main fs [script; file_path; ""] = main fs [script; file_path].
Proof.
  split; [|reflexivity].
  intros Hlen. destruct rest as [|a [|b rest]]; simpl in Hlen;
    try reflexivity. congruence.
Qed.

Lemma log_main_level_argument_witness :
  main (one_file "app.log" "d t INFO a")
       ["task3.py"; "app.log"; "info"; "extra"]
  = main (one_file "app.log" "d t INFO a") ["task3.py"; "app.log"].
Proof.
  destruct (log_main_level_argument (one_file "app.log" "d t INFO a")
              "task3.py" "app.log" ["info"; "extra"]) as [H _].
  apply H. simpl. lia.
Defined.

End LogAnalyzerMore.

(** ** Further properties of the contact assistant *)

Section ContactAssistantMore.
Import Task4.

Implicit Types contacts : gmap string string.
Implicit Types args : list string.

Lemma rstrip_no_space (t : string) : no_space t = true -> rstrip t = t.
Proof.
  induction t as [|c t IH]; [reflexivity|].
  simpl. intros H. apply andb_prop in H as [Hc Ht].
  apply negb_true_iff in Hc. rewrite (IH Ht), Hc. now destruct t.
Qed.

Lemma strip_no_space (t : string) : no_space t = true -> strip t = t.
Proof.
  intros H. unfold strip.
  assert (Hl : lstrip t = t).
  { destruct t as [|c t]; [reflexivity|]. simpl in *.
    apply andb_prop in H as [Hc _]. apply negb_true_iff in Hc.
    now rewrite Hc. }
  rewrite Hl. now apply rstrip_no_space.
Qed.

Lemma parse_input_split (user_input cmd : string) args :
  split user_input = cmd :: args ->
  parse_input user_input = Return (lower cmd :: args).
Proof.
  intros E. pose proof (split_words_only user_input) as Hw.
  unfold parse_input. rewrite E in *.
  apply Forall_inv in Hw. unfold is_word in Hw.
  apply andb_prop in Hw as [_ Hns]. now rewrite strip_no_space.
Qed.

Lemma iteration_dispatch (user_input cmd : string) args contacts :
  split user_input = cmd :: args ->
  iteration user_input contacts = dispatch (lower cmd) args contacts.
Proof.
  intros E. unfold iteration. now rewrite (parse_input_split _ _ _ E).
Qed.

(** X17: [parse_input] raises exactly on a line without tokens; otherwise it
    returns the first token in lower case, on which [strip] has nothing left
    to do, followed by the other tokens as they were typed. *)
Theorem parse_input_command (user_input : string) :
  (raises (parse_input user_input) <-> split user_input = [])
  /\ (forall cmd args, split user_input = cmd :: args ->
      parse_input user_input = Return (lower cmd :: args)).
Proof.
  split; [|intros cmd args; apply parse_input_split].
  unfold parse_input. destruct (split user_input); simpl; split;
    intros H; try exact I; try reflexivity; try contradiction; discriminate.
Qed.

Lemma parse_input_command_witness :
  parse_input "  ChAnGe  Bob 555 " = Return ["change"; "Bob"; "555"].
Proof.
  destruct (parse_input_command "  ChAnGe  Bob 555 ") as [_ H].
  exact (H "ChAnGe" ["Bob"; "555"] eq_refl).
Defined.

Lemma dispatch_flow (command : string) args contacts :
  exists fl v contacts',
    dispatch command args contacts = (Return (fl, v), contacts')
    /\ (fl = Break <-> command = "close" \/ command = "exit").
Proof.
  unfold dispatch.
  destruct (String.eqb command "close") eqn:Ec;
    [apply String.eqb_eq in Ec; simpl;
     exists Break; eexists; eexists; split; [reflexivity | tauto]|].
  destruct (String.eqb command "exit") eqn:Ee;
    [apply String.eqb_eq in Ee; simpl;
     exists Break; eexists; eexists; split; [reflexivity | tauto]|].
  apply String.eqb_neq in Ec, Ee. simpl.
  assert (Hnext : (Next = Break <-> command = "close" \/ command = "exit"))
    by (split; [discriminate | tauto]).
  destruct (String.eqb command "hello"); [eauto 6|].
  destruct (String.eqb command "add");
    [destruct (printing_returns (add_contact_func args) contacts)
       as (v & c' & H); exists Next, v, c'; now split|].
  destruct (String.eqb command "change");
    [destruct (printing_returns (change_contact_func args) contacts)
       as (v & c' & H); exists Next, v, c'; now split|].
  destruct (String.eqb command "phone");
    [destruct (printing_returns (find_phone_func args) contacts)
       as (v & c' & H); exists Next, v, c'; now split|].
  destruct (String.eqb command "all");
    [destruct (printing_returns show_all_func contacts)
       as (v & c' & H); exists Next, v, c'; now split|].
  eauto 6.
Qed.

(** X18: A line with at least one token is answered by exactly one printed
    value, and it ends the loop exactly when its first token, in lower
    case, is [close] or [exit]. *)
Theorem iteration_completes (user_input cmd : string) args contacts :
  split user_input = cmd :: args ->
  exists fl v contacts',
    iteration user_input contacts = (Return (fl, v), contacts')
    /\ (fl = Break <-> lower cmd = "close" \/ lower cmd = "exit").
Proof.
  intros E. rewrite (iteration_dispatch _ _ _ _ E). apply dispatch_flow.
Qed.

Lemma iteration_completes_witness :
  exists fl v contacts',
    iteration " EXIT now" ∅ = (Return (fl, v), contacts')
    /\ (fl = Break <-> lower "EXIT" = "close" \/ lower "EXIT" = "exit").
Proof.
  apply (iteration_completes " EXIT now" "EXIT" ["now"] ∅). reflexivity.
Defined.

(** X19: The command word is read without regard to case, and the whitespace
    around the tokens does not matter: two lines with the same arguments
    whose command words agree in lower case do the same. *)
Theorem iteration_case_insensitive
    (line1 line2 cmd1 cmd2 : string) args contacts :
  split line1 = cmd1 :: args ->
  split line2 = cmd2 :: args ->
  lower cmd1 = lower cmd2 ->
  iteration line1 contacts = iteration line2 contacts.
Proof.
  intros E1 E2 Hl.
  rewrite (iteration_dispatch _ _ _ _ E1), (iteration_dispatch _ _ _ _ E2).
  now rewrite Hl.
Qed.

Lemma iteration_case_insensitive_witness :
  iteration "  ADD   Bob 555" ∅ = iteration "add Bob 555" ∅.
Proof.
  apply (iteration_case_insensitive "  ADD   Bob 555" "add Bob 555"
           "ADD" "add" ["Bob"; "555"] ∅); reflexivity.
Defined.

Lemma printing_snd (h : handler) contacts :
  (printing h contacts).2 = (h contacts).2.
Proof. unfold printing. now destruct (h contacts). Qed.

Lemma find_phone_snd args contacts : (find_phone args contacts).2 = contacts.
Proof.
  destruct args as [|a l]; [reflexivity|].
  destruct (contacts !! a) as [p|] eqn:Ha.
  - now rewrite (find_present _ _ p).
  - now rewrite find_absent.
Qed.

(** X20: Whatever is typed, the entry of a name stays as it is, present with the
    same phone or absent, unless the line has exactly three tokens, the
    second is that name and the first is [add] or [change] in any case. *)
Theorem iteration_frame (user_input : string) contacts (k : string) :
  (iteration user_input contacts).2 !! k = contacts !! k
  \/ exists cmd phone,
       split user_input = [cmd; k; phone]
       /\ (lower cmd = "add" \/ lower cmd = "change").
Proof.
  destruct (split user_input) as [|cmd args] eqn:E.
  - left. now rewrite iteration_no_token.
  - rewrite (iteration_dispatch _ _ _ _ E). unfold dispatch.
    destruct (String.eqb _ "close" || String.eqb _ "exit"); [now left|].
    destruct (String.eqb _ "hello"); [now left|].
    destruct (String.eqb (lower cmd) "add") eqn:Ea.
    { apply String.eqb_eq in Ea. rewrite printing_snd.
      destruct args as [|a [|b [|x l]]];
        try (left; now rewrite wrong_arity_add by (simpl; lia)).
      rewrite add_two. simpl. destruct (decide (a = k)) as [->|Hne].
      - right. eauto.
      - left. now apply lookup_insert_ne. }
    destruct (String.eqb (lower cmd) "change") eqn:Ec.
    { apply String.eqb_eq in Ec. rewrite printing_snd.
      destruct args as [|a [|b [|x l]]];
        try (left; now rewrite wrong_arity_change by (simpl; lia)).
      destruct (contacts !! a) as [old|] eqn:Ha.
      - rewrite change_present by eauto. simpl.
        destruct (decide (a = k)) as [->|Hne].
        + right. eauto.
        + left. now apply lookup_insert_ne.
      - left. now rewrite change_absent. }
    destruct (String.eqb _ "phone");
      [left; now rewrite printing_snd, find_phone_snd|].
    destruct (String.eqb _ "all"); now left.
Qed.

(** X21: [add_contact] on a name that is already there replaces its phone
    without a warning: adding twice stores what the second call alone
    stores, and a [change_contact] after an [add_contact] succeeds and stores
    what adding the new phone would have stored. *)
Theorem add_contact_overwrites (name phone1 phone2 : string) contacts :
  add_contact [name; phone2] (add_contact [name; phone1] contacts).2 =
    (Return (Str "Contact added."), (add_contact [name; phone2] contacts).2)
  /\ change_contact [name; phone2] (add_contact [name; phone1] contacts).2 =
       (Return (Str "Contact changed."),
        (add_contact [name; phone2] contacts).2).
Proof.
  rewrite !add_two. simpl. split.
  - now rewrite insert_insert_eq.
  - rewrite change_present by (rewrite lookup_insert_eq; eauto).
    now rewrite insert_insert_eq.
Qed.

Lemma change_contact_dom args contacts :
  dom (change_contact args contacts).2 = dom contacts.
Proof.
  destruct args as [|a [|b [|x l]]];
    try (now rewrite wrong_arity_change by (simpl; lia)).
  destruct (contacts !! a) as [old|] eqn:Ha.
  - rewrite change_present by eauto. simpl.
    apply dom_insert_lookup_L. eauto.
  - now rewrite change_absent.
Qed.

Lemma add_contact_dom args contacts :
  dom contacts ⊆ dom (add_contact args contacts).2.
Proof.
  destruct args as [|a [|b [|x l]]];
    try (now rewrite wrong_arity_add by (simpl; lia)).
  rewrite add_two. simpl. rewrite dom_insert_L. apply union_subseteq_r.
Qed.

(** X22: The set of names: [change_contact] never changes it, whatever its
    arguments; [add_contact] never removes a name, and with a name and a
    phone it adds that name and no other. *)
Theorem handlers_names args contacts :
  dom (change_contact args contacts).2 = dom contacts
  /\ dom contacts ⊆ dom (add_contact args contacts).2
  /\ (forall name phone, args = [name; phone] ->
      dom (add_contact args contacts).2 = {[name]} ∪ dom contacts).
Proof.
  split; [apply change_contact_dom|]. split; [apply add_contact_dom|].
  intros name phone ->. rewrite add_two. simpl. apply dom_insert_L.
Qed.

Lemma handlers_names_witness :
  dom (add_contact ["A"; "1"] {["B" := "2"]}).2 =
    {["A"]} ∪ dom ({["B" := "2"]} : gmap string string).
Proof.
  destruct (handlers_names ["A"; "1"] {["B" := "2"]}) as (_ & _ & H).
  exact (H "A" "1" eq_refl).
Defined.

(** X23: A [phone] line looks up its second token and ignores the tokens after
    it: with at least one argument the answer is the stored phone or the
    not-found message, never the message about the number of arguments, and
    the contacts stay as they are. *)
Theorem phone_line (user_input cmd name : string) (more : list string)
    contacts :
  split user_input = cmd :: name :: more ->
  lower cmd = "phone" ->
  iteration user_input contacts =
    (Return (Next, match contacts !! name with
                   | Some phone => Str phone
                   | None => not_found
                   end), contacts).
Proof.
  intros E Hc. rewrite (iteration_dispatch _ _ _ _ E), Hc.
  unfold dispatch, printing. simpl.
  destruct (contacts !! name) as [p|] eqn:Hn.
  - now rewrite (find_present _ _ p).
  - now rewrite find_absent.
Qed.

Lemma phone_line_witness :
  iteration "Phone Bob and friends" {["Bob" := "555"]} =
    (Return (Next, match ({["Bob" := "555"]} : gmap string string) !! "Bob"
                   with
                   | Some phone => Str phone
                   | None => not_found
                   end), {["Bob" := "555"]}).
Proof.
  apply (phone_line "Phone Bob and friends" "Phone" "Bob"
           ["and"; "friends"]); reflexivity.
Defined.

(** X24: An [add] or [change] line that does not have exactly two arguments,
    for instance because the name is written in two words, stores nothing
    and is answered by the request for a name and a phone. *)
Theorem store_line_arity (user_input cmd : string) args contacts :
  split user_input = cmd :: args ->
  lower cmd = "add" \/ lower cmd = "change" ->
  length args <> 2 ->
  iteration user_input contacts =
    (Return (Next, Str "Give me name and phone please."), contacts).
Proof.
  intros E Hc Hlen. rewrite (iteration_dispatch _ _ _ _ E).
  unfold dispatch, printing. destruct Hc as [-> | ->]; simpl.
  - now rewrite wrong_arity_add.
  - now rewrite wrong_arity_change.
Qed.

Lemma store_line_arity_witness :
  iteration "add John Smith 555" ∅ =
    (Return (Next, Str "Give me name and phone please."), ∅).
Proof.
  apply (store_line_arity "add John Smith 555" "add"
           ["John"; "Smith"; "555"]).
  - reflexivity.
  - left. reflexivity.
  - simpl. lia.
Defined.

(** X25: Round trip at the prompt: for a name and a phone that are single words,
    the line [add name phone] stores the phone under the name and the line
    [phone name] typed next prints it. *)
Theorem add_line_then_phone_line (name phone : string) contacts :
  is_word name = true -> is_word phone = true ->
  iteration (join " " ["add"; name; phone]) contacts =
    (Return (Next, Str "Contact added."), <[name := phone]> contacts)
  /\ iteration (join " " ["phone"; name]) (<[name := phone]> contacts) =
       (Return (Next, Str phone), <[name := phone]> contacts).
Proof.
  intros Hn Hp. split.
  - rewrite (iteration_dispatch _ "add" [name; phone]);
      [reflexivity|].
    apply split_join. repeat constructor; assumption.
  - rewrite (iteration_dispatch _ "phone" [name]).
    + unfold dispatch, printing. simpl.
      now rewrite (find_present _ _ phone) by apply lookup_insert_eq.
    + apply split_join. repeat constructor; assumption.
Qed.

Lemma add_line_then_phone_line_witness :
  iteration (join " " ["add"; "Bob"; "555"]) ∅ =
    (Return (Next, Str "Contact added."), <["Bob" := "555"]> ∅)
  /\ iteration (join " " ["phone"; "Bob"]) (<["Bob" := "555"]> ∅) =
       (Return (Next, Str "555"), <["Bob" := "555"]> ∅).
Proof.
  apply (add_line_then_phone_line "Bob" "555" ∅); reflexivity.
Defined.

(** X26: The assistant has no way to forget a contact: whatever line is typed,
    every name that was in the contacts is still there afterwards. *)
Theorem iteration_keeps_names (user_input : string) contacts :
  dom contacts ⊆ dom (iteration user_input contacts).2.
Proof.
  destruct (split user_input) as [|cmd args] eqn:E.
  - now rewrite iteration_no_token.
  - rewrite (iteration_dispatch _ _ _ _ E). unfold dispatch.
    destruct (String.eqb _ "close" || String.eqb _ "exit"); [done|].
    destruct (String.eqb _ "hello"); [done|].
    destruct (String.eqb _ "add");
      [rewrite printing_snd; apply add_contact_dom|].
    destruct (String.eqb _ "change");
      [now rewrite printing_snd, change_contact_dom|].
    destruct (String.eqb _ "phone");
      [now rewrite printing_snd, find_phone_snd|].
    destruct (String.eqb _ "all"); done.
Qed.

(** *** The loop *)

Lemma iteration_exit (user_input cmd : string) args contacts :
  split user_input = cmd :: args ->
  lower cmd = "close" \/ lower cmd = "exit" ->
  iteration user_input contacts = (Return (Break, Str "Good bye!"), contacts).
Proof.
  intros E Hc. rewrite (iteration_dispatch _ _ _ _ E).
  unfold dispatch. now destruct Hc as [-> | ->].
Qed.

Lemma iteration_next (user_input cmd : string) args contacts :
  split user_input = cmd :: args ->
  lower cmd <> "close" -> lower cmd <> "exit" ->
  exists v contacts',
    iteration user_input contacts = (Return (Next, v), contacts').
Proof.
  intros E Hc He. rewrite (iteration_dispatch _ _ _ _ E).
  destruct (dispatch_flow (lower cmd) args contacts)
    as (fl & v & c' & Hd & Hfl).
  exists v, c'. rewrite Hd. destruct fl; [reflexivity|].
  exfalso. destruct Hfl as [Hfl _]. destruct (Hfl eq_refl); contradiction.
Qed.

Lemma loop_stops_at_exit (before after : list string)
    (line cmd : string) args contacts (out : list pyval) :
  split line = cmd :: args ->
  lower cmd = "close" \/ lower cmd = "exit" ->
  loop (before ++ line :: after) contacts out =
    loop (before ++ [line]) contacts out.
Proof.
  intros E Hc. revert contacts out.
  induction before as [|x before IH]; intros contacts out; simpl.
  - now rewrite (iteration_exit _ _ _ _ E Hc).
  - destruct (iteration x contacts) as [[[[] v]|e] c']; auto.
Qed.

(** X27: The loop ends at the first [close] or [exit] line: what is typed after
    it is never read and changes neither the outcome nor the output. *)
Theorem assistant_main_stops_at_exit (before after : list string)
    (line cmd : string) args :
  split line = cmd :: args ->
  lower cmd = "close" \/ lower cmd = "exit" ->
  main (before ++ line :: after) = main (before ++ [line]).
Proof.
  intros E Hc. unfold main.
  now apply (loop_stops_at_exit _ _ _ cmd args).
Qed.

Lemma assistant_main_stops_at_exit_witness :
  main (["add A 1"] ++ "Close" :: ["phone A"; ""]) =
    main (["add A 1"] ++ ["Close"]).
Proof.
  apply (assistant_main_stops_at_exit ["add A 1"] ["phone A"; ""]
           "Close" "Close" []).
  - reflexivity.
  - left. reflexivity.
Defined.

Lemma loop_end_of_input (inputs : list string) :
  Forall (fun line => exists cmd args,
            split line = cmd :: args
            /\ lower cmd <> "close" /\ lower cmd <> "exit") inputs ->
  forall contacts out,
    exists out',
      loop inputs contacts out =
        (Raise (EOFError "EOF when reading a line"), out')
      /\ length out' = length out + length inputs.
Proof.
  induction 1 as [|line inputs (cmd & args & E & Hc & He) _ IH];
    intros contacts out; simpl.
  - exists out. split; [reflexivity | lia].
  - destruct (iteration_next _ _ _ contacts E Hc He) as (v & c' & ->).
    destruct (IH c' (out ++ [v])) as (out' & -> & Hlen).
    exists out'. split; [reflexivity|].
    rewrite Hlen, List.length_app. simpl. lia.
Qed.

(** X28: When every line typed has a token and none is a [close] or [exit]
    line, each line is answered by exactly one printed value after the
    welcome, and at the end of the input [input] raises [EOFError], which
    nothing catches: [main] ends with that exception. *)
Theorem assistant_main_end_of_input (inputs : list string) :
  Forall (fun line => exists cmd args,
            split line = cmd :: args
            /\ lower cmd <> "close" /\ lower cmd <> "exit") inputs ->
  exists out,
    main inputs = (Raise (EOFError "EOF when reading a line"), out)
    /\ length out = S (length inputs).
Proof.
  intros H. unfold main.
  destruct (loop_end_of_input inputs H ∅
              [Str "Welcome to the assistant bot!"]) as (out & Hl & Hlen).
  exists out. split; [exact Hl | exact Hlen].
Qed.

Lemma assistant_main_end_of_input_witness :
  exists out,
    main ["hello"; "add A 1"] =
      (Raise (EOFError "EOF when reading a line"), out)
    /\ length out = 3.
Proof.
  apply (assistant_main_end_of_input ["hello"; "add A 1"]).
  constructor; [|constructor; [|constructor]].
  - exists "hello", []. repeat split; discriminate.
  - exists "add", ["A"; "1"]. repeat split; discriminate.
Defined.

End ContactAssistantMore.
